(** * The keyword table engine of the item-sourcing page

    A shallow embedding of the state and effects of [ItemSourcingPage]
    (src/app/item-sourcing/page.tsx): the filter-and-sort effect, the
    inclusion-set toggles, the sort handler, the infinite-scroll window
    and the simulated dataset loads, then the lookup of a category name,
    the category pickers and the reordering of the columns, followed by
    the properties of the engine that the specification states and by
    further properties read off the code.

    Modelling conventions.
    - A JavaScript string is a [string]: a sequence of 8-bit character
      codes.  ASCII text is represented as it is; the Korean labels of
      the source are the UTF-8 bytes of the literal, for which equality,
      substring search and ordering agree with the source's.
    - A JavaScript number that holds an integer is a [Z]; [NaN], which
      only [Number.parseInt] produces here, is [None].
    - A count ([visibleKeywords], an array length) is a [nat].
    - [useState] variables are the fields of one record; an event handler
      is a function on that record, and the effects that React runs after
      the render are applied right after the handler.
    - The scroll listener that the infinite scroll effect adds to the
      table container is part of the state, as the values that its
      closure captured.
    - The text of a field of type number reaches its handler as the
      value of the input element. *)

From Stdlib Require Import List String Ascii ZArith NArith Bool Lia Arith.
From Stdlib Require Import Permutation Sorted DecimalString.
Import ListNotations.
Local Open Scope string_scope.

(** ** The JavaScript built-ins the page relies on *)

Module JS.

(** Truthiness of a string: every string but the empty one. *)
Definition truthy (s : string) : bool :=
  match s with
  | EmptyString => false
  | String _ _ => true
  end.

(** [String.prototype.toLowerCase], on the letters A to Z; every other
    character code is kept, so the mapping of letters outside ASCII is
    not represented. *)
Definition lowerChar (c : ascii) : ascii :=
  let n := N_of_ascii c in
  if ((65 <=? n) && (n <=? 90))%N then ascii_of_N (n + 32) else c.

Fixpoint toLowerCase (s : string) : string :=
  match s with
  | EmptyString => EmptyString
  | String c s' => String (lowerChar c) (toLowerCase s')
  end.

(** [String.prototype.includes]: [searchString] occurs in [s]. *)
Fixpoint includes (s searchString : string) : bool :=
  prefix searchString s
  || match s with
     | EmptyString => false
     | String _ s' => includes s' searchString
     end.

(** [Array.prototype.includes] on an array of strings. *)
Definition arrayIncludes (a : list string) (v : string) : bool :=
  existsb (String.eqb v) a.

(** [Number.parseInt] without a radix: leading white space is skipped,
    a sign is read, a [0x] prefix selects base 16, and the longest run
    of digits is converted; without any digit the result is [NaN]. *)
Definition isWhiteSpace (c : ascii) : bool :=
  let n := N_of_ascii c in
  ((n =? 9) || (n =? 10) || (n =? 11) || (n =? 12) || (n =? 13) || (n =? 32))%N.

Fixpoint trimStart (s : string) : string :=
  match s with
  | EmptyString => EmptyString
  | String c s' => if isWhiteSpace c then trimStart s' else s
  end.

Definition digitValue (c : ascii) : option Z :=
  let n := N_of_ascii c in
  if ((48 <=? n) && (n <=? 57))%N then Some (Z.of_N (n - 48))
  else if ((97 <=? n) && (n <=? 122))%N then Some (Z.of_N (n - 87))
  else if ((65 <=? n) && (n <=? 90))%N then Some (Z.of_N (n - 55))
  else None.

Fixpoint parseDigits (radix : Z) (s : string) (acc : option Z) : option Z :=
  match s with
  | EmptyString => acc
  | String c s' =>
      match digitValue c with
      | Some d =>
          if (d <? radix)%Z
          then parseDigits radix s'
                 (Some (match acc with
                        | Some a => a * radix + d
                        | None => d
                        end)%Z)
          else acc
      | None => acc
      end
  end.

Definition parseInt (s : string) : option Z :=
  let s1 := trimStart s in
  let '(sign, s2) :=
    match s1 with
    | String "-" r => ((-1)%Z, r)
    | String "+" r => (1%Z, r)
    | _ => (1%Z, s1)
    end in
  let '(radix, s3) :=
    match s2 with
    | String "0" (String "x" r) => (16%Z, r)
    | String "0" (String "X" r) => (16%Z, r)
    | _ => (10%Z, s2)
    end in
  option_map (Z.mul sign) (parseDigits radix s3 None).

(** [x >= y] and [x <= y] where [y] may be [NaN]: a comparison with
    [NaN] is false. *)
Definition ge (x : Z) (y : option Z) : bool :=
  match y with
  | Some v => (v <=? x)%Z
  | None => false
  end.

Definition le (x : Z) (y : option Z) : bool :=
  match y with
  | Some v => (x <=? v)%Z
  | None => false
  end.

End JS.

(** ** The data model *)

Inductive CompetitionLevel : Type := CompetitionLow | CompetitionMedium | CompetitionHigh.

Inductive SearchType : Type := Shopping | Informational.

(** The string each member of the two closed unions stands for. *)
Definition competitionLevelString (c : CompetitionLevel) : string :=
  match c with
  | CompetitionLow => "낮음"
  | CompetitionMedium => "중간"
  | CompetitionHigh => "높음"
  end.

Definition searchTypeString (t : SearchType) : string :=
  match t with
  | Shopping => "쇼핑성"
  | Informational => "정보성"
  end.

Module Keyword.
Record t : Type := mk {
  id : string;
  name : string;
  searchVolume : Z;
  productCount : Z;
  competitionLevel : CompetitionLevel;
  trendData : list Z;
  isBrand : bool;
  searchType : SearchType
}.

Definition eq_dec (a b : t) : {a = b} + {a <> b}.
Proof.
  decide equality;
    try apply string_dec; try apply Z.eq_dec; try apply bool_dec;
    try (apply list_eq_dec; apply Z.eq_dec); decide equality.
Defined.
End Keyword.

Inductive Direction : Type := asc | desc.

Record SortConfig : Type := mkSortConfig {
  key : string;
  direction : Direction
}.

(** ** The state of the page

    One field per [useState] variable that the engine reads or writes
    (the column layout and the category pickers stay in the presentation
    layer). *)

Record PageState : Type := mkPageState {
  keywords : list Keyword.t;
  filteredKeywords : list Keyword.t;
  searchTerm : string;
  isLoading : bool;
  searchVolumeFilter : string;
  minSearchVolume : string;
  maxSearchVolume : string;
  brandFilter : list string;
  searchTypeFilter : list string;
  competitionFilter : list string;
  genderFilter : string;
  ageFilter : list string;
  bestSellingMonthFilter : string;
  searchVolumeIncreaseFilter : string;
  customSearchVolumeIncrease : string;
  visibleKeywords : nat;
  isLoadingMore : bool;
  sortConfig : option SortConfig
}.

(** The state setters: each replaces one variable and keeps the others. *)

Definition setKeywords (v : list Keyword.t) (s : PageState) : PageState :=
  mkPageState
    v s.(filteredKeywords) s.(searchTerm) s.(isLoading)
    s.(searchVolumeFilter) s.(minSearchVolume) s.(maxSearchVolume)
    s.(brandFilter) s.(searchTypeFilter) s.(competitionFilter)
    s.(genderFilter) s.(ageFilter) s.(bestSellingMonthFilter)
    s.(searchVolumeIncreaseFilter) s.(customSearchVolumeIncrease)
    s.(visibleKeywords) s.(isLoadingMore) s.(sortConfig).

Definition setFilteredKeywords (v : list Keyword.t) (s : PageState) : PageState :=
  mkPageState
    s.(keywords) v s.(searchTerm) s.(isLoading) s.(searchVolumeFilter)
    s.(minSearchVolume) s.(maxSearchVolume) s.(brandFilter)
    s.(searchTypeFilter) s.(competitionFilter) s.(genderFilter)
    s.(ageFilter) s.(bestSellingMonthFilter)
    s.(searchVolumeIncreaseFilter) s.(customSearchVolumeIncrease)
    s.(visibleKeywords) s.(isLoadingMore) s.(sortConfig).

Definition setSearchTerm (v : string) (s : PageState) : PageState :=
  mkPageState
    s.(keywords) s.(filteredKeywords) v s.(isLoading)
    s.(searchVolumeFilter) s.(minSearchVolume) s.(maxSearchVolume)
    s.(brandFilter) s.(searchTypeFilter) s.(competitionFilter)
    s.(genderFilter) s.(ageFilter) s.(bestSellingMonthFilter)
    s.(searchVolumeIncreaseFilter) s.(customSearchVolumeIncrease)
    s.(visibleKeywords) s.(isLoadingMore) s.(sortConfig).

Definition setIsLoading (v : bool) (s : PageState) : PageState :=
  mkPageState
    s.(keywords) s.(filteredKeywords) s.(searchTerm) v
    s.(searchVolumeFilter) s.(minSearchVolume) s.(maxSearchVolume)
    s.(brandFilter) s.(searchTypeFilter) s.(competitionFilter)
    s.(genderFilter) s.(ageFilter) s.(bestSellingMonthFilter)
    s.(searchVolumeIncreaseFilter) s.(customSearchVolumeIncrease)
    s.(visibleKeywords) s.(isLoadingMore) s.(sortConfig).

Definition setSearchVolumeFilter (v : string) (s : PageState) : PageState :=
  mkPageState
    s.(keywords) s.(filteredKeywords) s.(searchTerm) s.(isLoading) v
    s.(minSearchVolume) s.(maxSearchVolume) s.(brandFilter)
    s.(searchTypeFilter) s.(competitionFilter) s.(genderFilter)
    s.(ageFilter) s.(bestSellingMonthFilter)
    s.(searchVolumeIncreaseFilter) s.(customSearchVolumeIncrease)
    s.(visibleKeywords) s.(isLoadingMore) s.(sortConfig).

Definition setMinSearchVolume (v : string) (s : PageState) : PageState :=
  mkPageState
    s.(keywords) s.(filteredKeywords) s.(searchTerm) s.(isLoading)
    s.(searchVolumeFilter) v s.(maxSearchVolume) s.(brandFilter)
    s.(searchTypeFilter) s.(competitionFilter) s.(genderFilter)
    s.(ageFilter) s.(bestSellingMonthFilter)
    s.(searchVolumeIncreaseFilter) s.(customSearchVolumeIncrease)
    s.(visibleKeywords) s.(isLoadingMore) s.(sortConfig).

Definition setMaxSearchVolume (v : string) (s : PageState) : PageState :=
  mkPageState
    s.(keywords) s.(filteredKeywords) s.(searchTerm) s.(isLoading)
    s.(searchVolumeFilter) s.(minSearchVolume) v s.(brandFilter)
    s.(searchTypeFilter) s.(competitionFilter) s.(genderFilter)
    s.(ageFilter) s.(bestSellingMonthFilter)
    s.(searchVolumeIncreaseFilter) s.(customSearchVolumeIncrease)
    s.(visibleKeywords) s.(isLoadingMore) s.(sortConfig).

Definition setBrandFilter (v : list string) (s : PageState) : PageState :=
  mkPageState
    s.(keywords) s.(filteredKeywords) s.(searchTerm) s.(isLoading)
    s.(searchVolumeFilter) s.(minSearchVolume) s.(maxSearchVolume) v
    s.(searchTypeFilter) s.(competitionFilter) s.(genderFilter)
    s.(ageFilter) s.(bestSellingMonthFilter)
    s.(searchVolumeIncreaseFilter) s.(customSearchVolumeIncrease)
    s.(visibleKeywords) s.(isLoadingMore) s.(sortConfig).

Definition setSearchTypeFilter (v : list string) (s : PageState) : PageState :=
  mkPageState
    s.(keywords) s.(filteredKeywords) s.(searchTerm) s.(isLoading)
    s.(searchVolumeFilter) s.(minSearchVolume) s.(maxSearchVolume)
    s.(brandFilter) v s.(competitionFilter) s.(genderFilter) s.(ageFilter)
    s.(bestSellingMonthFilter) s.(searchVolumeIncreaseFilter)
    s.(customSearchVolumeIncrease) s.(visibleKeywords) s.(isLoadingMore)
    s.(sortConfig).

Definition setCompetitionFilter (v : list string) (s : PageState) : PageState :=
  mkPageState
    s.(keywords) s.(filteredKeywords) s.(searchTerm) s.(isLoading)
    s.(searchVolumeFilter) s.(minSearchVolume) s.(maxSearchVolume)
    s.(brandFilter) s.(searchTypeFilter) v s.(genderFilter) s.(ageFilter)
    s.(bestSellingMonthFilter) s.(searchVolumeIncreaseFilter)
    s.(customSearchVolumeIncrease) s.(visibleKeywords) s.(isLoadingMore)
    s.(sortConfig).

Definition setGenderFilter (v : string) (s : PageState) : PageState :=
  mkPageState
    s.(keywords) s.(filteredKeywords) s.(searchTerm) s.(isLoading)
    s.(searchVolumeFilter) s.(minSearchVolume) s.(maxSearchVolume)
    s.(brandFilter) s.(searchTypeFilter) s.(competitionFilter) v
    s.(ageFilter) s.(bestSellingMonthFilter)
    s.(searchVolumeIncreaseFilter) s.(customSearchVolumeIncrease)
    s.(visibleKeywords) s.(isLoadingMore) s.(sortConfig).

Definition setAgeFilter (v : list string) (s : PageState) : PageState :=
  mkPageState
    s.(keywords) s.(filteredKeywords) s.(searchTerm) s.(isLoading)
    s.(searchVolumeFilter) s.(minSearchVolume) s.(maxSearchVolume)
    s.(brandFilter) s.(searchTypeFilter) s.(competitionFilter)
    s.(genderFilter) v s.(bestSellingMonthFilter)
    s.(searchVolumeIncreaseFilter) s.(customSearchVolumeIncrease)
    s.(visibleKeywords) s.(isLoadingMore) s.(sortConfig).

Definition setBestSellingMonthFilter (v : string) (s : PageState) : PageState :=
  mkPageState
    s.(keywords) s.(filteredKeywords) s.(searchTerm) s.(isLoading)
    s.(searchVolumeFilter) s.(minSearchVolume) s.(maxSearchVolume)
    s.(brandFilter) s.(searchTypeFilter) s.(competitionFilter)
    s.(genderFilter) s.(ageFilter) v s.(searchVolumeIncreaseFilter)
    s.(customSearchVolumeIncrease) s.(visibleKeywords) s.(isLoadingMore)
    s.(sortConfig).

Definition setSearchVolumeIncreaseFilter (v : string) (s : PageState) : PageState :=
  mkPageState
    s.(keywords) s.(filteredKeywords) s.(searchTerm) s.(isLoading)
    s.(searchVolumeFilter) s.(minSearchVolume) s.(maxSearchVolume)
    s.(brandFilter) s.(searchTypeFilter) s.(competitionFilter)
    s.(genderFilter) s.(ageFilter) s.(bestSellingMonthFilter) v
    s.(customSearchVolumeIncrease) s.(visibleKeywords) s.(isLoadingMore)
    s.(sortConfig).

Definition setCustomSearchVolumeIncrease (v : string) (s : PageState) : PageState :=
  mkPageState
    s.(keywords) s.(filteredKeywords) s.(searchTerm) s.(isLoading)
    s.(searchVolumeFilter) s.(minSearchVolume) s.(maxSearchVolume)
    s.(brandFilter) s.(searchTypeFilter) s.(competitionFilter)
    s.(genderFilter) s.(ageFilter) s.(bestSellingMonthFilter)
    s.(searchVolumeIncreaseFilter) v s.(visibleKeywords) s.(isLoadingMore)
    s.(sortConfig).

Definition setVisibleKeywords (v : nat) (s : PageState) : PageState :=
  mkPageState
    s.(keywords) s.(filteredKeywords) s.(searchTerm) s.(isLoading)
    s.(searchVolumeFilter) s.(minSearchVolume) s.(maxSearchVolume)
    s.(brandFilter) s.(searchTypeFilter) s.(competitionFilter)
    s.(genderFilter) s.(ageFilter) s.(bestSellingMonthFilter)
    s.(searchVolumeIncreaseFilter) s.(customSearchVolumeIncrease) v
    s.(isLoadingMore) s.(sortConfig).

Definition setIsLoadingMore (v : bool) (s : PageState) : PageState :=
  mkPageState
    s.(keywords) s.(filteredKeywords) s.(searchTerm) s.(isLoading)
    s.(searchVolumeFilter) s.(minSearchVolume) s.(maxSearchVolume)
    s.(brandFilter) s.(searchTypeFilter) s.(competitionFilter)
    s.(genderFilter) s.(ageFilter) s.(bestSellingMonthFilter)
    s.(searchVolumeIncreaseFilter) s.(customSearchVolumeIncrease)
    s.(visibleKeywords) v s.(sortConfig).

Definition setSortConfig (v : option SortConfig) (s : PageState) : PageState :=
  mkPageState
    s.(keywords) s.(filteredKeywords) s.(searchTerm) s.(isLoading)
    s.(searchVolumeFilter) s.(minSearchVolume) s.(maxSearchVolume)
    s.(brandFilter) s.(searchTypeFilter) s.(competitionFilter)
    s.(genderFilter) s.(ageFilter) s.(bestSellingMonthFilter)
    s.(searchVolumeIncreaseFilter) s.(customSearchVolumeIncrease)
    s.(visibleKeywords) s.(isLoadingMore) v.

(** ** Sorting *)

Module Sorting.

(** What [keyword[key]] evaluates to. *)
Inductive FieldValue : Type :=
| VString (s : string)
| VNumber (z : Z)
| VBoolean (b : bool)
| VArray (a : list Z)
| VUndefined.

Definition getField (keyword : Keyword.t) (key : string) : FieldValue :=
  if key =? "id" then VString (Keyword.id keyword)
  else if key =? "name" then VString (Keyword.name keyword)
  else if key =? "searchVolume" then VNumber (Keyword.searchVolume keyword)
  else if key =? "productCount" then VNumber (Keyword.productCount keyword)
  else if key =? "competitionLevel"
       then VString (competitionLevelString (Keyword.competitionLevel keyword))
  else if key =? "trendData" then VArray (Keyword.trendData keyword)
  else if key =? "isBrand" then VBoolean (Keyword.isBrand keyword)
  else if key =? "searchType"
       then VString (searchTypeString (Keyword.searchType keyword))
  else VUndefined.

(** The string an array of integers converts to: its elements in
    decimal, joined by commas. *)
Definition numberToString (z : Z) : string :=
  NilZero.string_of_int (Z.to_int z).

Fixpoint arrayToString (a : list Z) : string :=
  match a with
  | [] => ""
  | [z] => numberToString z
  | z :: a' => numberToString z ++ "," ++ arrayToString a'
  end.

(** [x < y] for two values read from the same field of two records,
    which therefore have the same type: numbers are compared as
    numbers, strings character by character, booleans as 0 and 1,
    arrays through their string form, and a comparison with
    [undefined] is false.  (Operands of different types do not arise
    and are left incomparable.) *)
Definition less (x y : FieldValue) : bool :=
  match x, y with
  | VNumber a, VNumber b => (a <? b)%Z
  | VString a, VString b => String.ltb a b
  | VBoolean a, VBoolean b => (Z.b2z a <? Z.b2z b)%Z
  | VArray a, VArray b => String.ltb (arrayToString a) (arrayToString b)
  | _, _ => false
  end.

(** The comparison function that the effect passes to [sort]. *)
Definition compareFn (cfg : SortConfig) (a b : Keyword.t) : Z :=
  if less (getField a (key cfg)) (getField b (key cfg))
  then match direction cfg with asc => (-1)%Z | desc => 1%Z end
  else if less (getField b (key cfg)) (getField a (key cfg))
  then match direction cfg with asc => 1%Z | desc => (-1)%Z end
  else 0%Z.

(** [Array.prototype.sort] with a comparison function.  The language
    requires the sort to be stable, which fixes its result for a
    consistent comparison function; it is computed here by stable
    insertion: an element moves past those that compare strictly
    below it. *)
Fixpoint insert {A : Type} (compare : A -> A -> Z) (x : A) (l : list A) : list A :=
  match l with
  | [] => [x]
  | y :: l' =>
      if (0 <? compare x y)%Z then y :: insert compare x l' else x :: l
  end.

Fixpoint sort {A : Type} (compare : A -> A -> Z) (l : list A) : list A :=
  match l with
  | [] => []
  | x :: l' => insert compare x (sort compare l')
  end.

End Sorting.

(** ** The filter-and-sort effect *)

(** The blocks of the effect, in the order in which it applies them to
    [result]; each takes the state variables it reads. *)

(** "Apply search term filter". *)
Definition applySearchTerm (searchTerm : string) (result : list Keyword.t) : list Keyword.t :=
  if JS.truthy searchTerm
  then filter (fun keyword =>
                 JS.includes (JS.toLowerCase (Keyword.name keyword))
                             (JS.toLowerCase searchTerm)) result
  else result.

(** "Apply search volume filter". *)
Definition applySearchVolume (searchVolumeFilter minSearchVolume maxSearchVolume : string)
    (result : list Keyword.t) : list Keyword.t :=
  if JS.truthy searchVolumeFilter
  then
    if searchVolumeFilter =? "custom"
    then
      let result :=
        if JS.truthy minSearchVolume
        then filter (fun keyword =>
                       JS.ge (Keyword.searchVolume keyword)
                             (JS.parseInt minSearchVolume)) result
        else result in
      if JS.truthy maxSearchVolume
      then filter (fun keyword =>
                     JS.le (Keyword.searchVolume keyword)
                           (JS.parseInt maxSearchVolume)) result
      else result
    else
      let threshold := JS.parseInt searchVolumeFilter in
      filter (fun keyword => JS.ge (Keyword.searchVolume keyword) threshold) result
  else result.

(** "Apply brand filter". *)
Definition applyBrand (brandFilter : list string) (result : list Keyword.t) : list Keyword.t :=
  if negb (JS.arrayIncludes brandFilter "all")
  then
    let includeBrand := JS.arrayIncludes brandFilter "brand" in
    let includeNonBrand := JS.arrayIncludes brandFilter "non-brand" in
    if includeBrand && negb includeNonBrand
    then filter (fun keyword => Keyword.isBrand keyword) result
    else if negb includeBrand && includeNonBrand
    then filter (fun keyword => negb (Keyword.isBrand keyword)) result
    else result
  else result.

(** "Apply search type filter". *)
Definition applySearchType (searchTypeFilter : list string) (result : list Keyword.t)
    : list Keyword.t :=
  if negb (JS.arrayIncludes searchTypeFilter "all")
  then filter (fun keyword =>
                 JS.arrayIncludes searchTypeFilter
                   (searchTypeString (Keyword.searchType keyword))) result
  else result.

(** "Apply competition level filter". *)
Definition applyCompetition (competitionFilter : list string) (result : list Keyword.t)
    : list Keyword.t :=
  if negb (JS.arrayIncludes competitionFilter "all")
  then filter (fun keyword =>
                 JS.arrayIncludes competitionFilter
                   (competitionLevelString (Keyword.competitionLevel keyword))) result
  else result.

(** The gender, age, best selling month and search volume increase
    blocks: each tests its state variable and has an empty body. *)
Definition applyMockFilters
    (genderFilter : string) (ageFilter : list string)
    (bestSellingMonthFilter searchVolumeIncreaseFilter : string)
    (result : list Keyword.t) : list Keyword.t :=
  let result := if negb (genderFilter =? "all") then result else result in
  let result := if (0 <? List.length ageFilter)%nat then result else result in
  let result := if JS.truthy bestSellingMonthFilter then result else result in
  let result := if JS.truthy searchVolumeIncreaseFilter then result else result in
  result.

Definition filterStage (st : PageState) : list Keyword.t :=
  let result := st.(keywords) in
  let result := applySearchTerm st.(searchTerm) result in
  let result :=
    applySearchVolume st.(searchVolumeFilter) st.(minSearchVolume)
      st.(maxSearchVolume) result in
  let result := applyBrand st.(brandFilter) result in
  let result := applySearchType st.(searchTypeFilter) result in
  let result := applyCompetition st.(competitionFilter) result in
  let result :=
    applyMockFilters st.(genderFilter) st.(ageFilter)
      st.(bestSellingMonthFilter) st.(searchVolumeIncreaseFilter) result in
  result.

Definition sortStage (cfg : option SortConfig) (result : list Keyword.t) : list Keyword.t :=
  match cfg with
  | Some c => Sorting.sort (Sorting.compareFn c) result
  | None => result
  end.

(** The array that the effect stores with [setFilteredKeywords]. *)
Definition filterAndSort (st : PageState) : list Keyword.t :=
  sortStage st.(sortConfig) (filterStage st).

Definition filterAndSortEffect (st : PageState) : PageState :=
  setFilteredKeywords (filterAndSort st) st.

(** The rows that the table renders: [filteredKeywords.slice(0, visibleKeywords)]. *)
Definition visibleSlice (st : PageState) : list Keyword.t :=
  firstn st.(visibleKeywords) st.(filteredKeywords).

(** ** Event handlers *)

(** The body shared by [handleBrandFilterChange],
    [handleSearchTypeFilterChange] and [handleCompetitionFilterChange]:
    the next value of the inclusion set [current] when [value] is
    toggled. *)
Definition toggleInclusion (current : list string) (value : string) : list string :=
  if value =? "all" then ["all"]
  else
    let newFilter :=
      if JS.arrayIncludes current value
      then filter (fun item => negb (item =? value)) current
      else (filter (fun item => negb (item =? "all")) current ++ [value])%list in
    match newFilter with
    | [] => ["all"]
    | _ :: _ => newFilter
    end.

Definition handleBrandFilterChange (value : string) (st : PageState) : PageState :=
  setBrandFilter (toggleInclusion st.(brandFilter) value) st.

Definition handleSearchTypeFilterChange (value : string) (st : PageState) : PageState :=
  setSearchTypeFilter (toggleInclusion st.(searchTypeFilter) value) st.

Definition handleCompetitionFilterChange (value : string) (st : PageState) : PageState :=
  setCompetitionFilter (toggleInclusion st.(competitionFilter) value) st.

Definition handleAgeFilterChange (value : string) (st : PageState) : PageState :=
  let newFilter :=
    if JS.arrayIncludes st.(ageFilter) value
    then filter (fun item => negb (item =? value)) st.(ageFilter)
    else (st.(ageFilter) ++ [value])%list in
  setAgeFilter newFilter st.

Definition handleSort (columnId : string) (st : PageState) : PageState :=
  let next :=
    match st.(sortConfig) with
    | Some prevConfig =>
        if key prevConfig =? columnId
        then mkSortConfig columnId
               (match direction prevConfig with asc => desc | desc => asc end)
        else mkSortConfig columnId desc
    | None => mkSortConfig columnId desc
    end in
  setSortConfig (Some next) st.

Definition resetFilters (st : PageState) : PageState :=
  setCustomSearchVolumeIncrease ""
    (setSearchVolumeIncreaseFilter ""
       (setBestSellingMonthFilter ""
          (setAgeFilter []
             (setGenderFilter "all"
                (setCompetitionFilter ["all"]
                   (setSearchTypeFilter ["all"]
                      (setBrandFilter ["all"]
                         (setMaxSearchVolume ""
                            (setMinSearchVolume ""
                               (setSearchVolumeFilter ""
                                  (setSearchTerm "" st))))))))))).

(** The state of the component when it mounts. *)
Definition initialState : PageState :=
  {| keywords := [];
     filteredKeywords := [];
     searchTerm := "";
     isLoading := true;
     searchVolumeFilter := "";
     minSearchVolume := "";
     maxSearchVolume := "";
     brandFilter := ["all"];
     searchTypeFilter := ["all"];
     competitionFilter := ["all"];
     genderFilter := "all";
     ageFilter := [];
     bestSellingMonthFilter := "";
     searchVolumeIncreaseFilter := "";
     customSearchVolumeIncrease := "";
     visibleKeywords := 30;
     isLoadingMore := false;
     sortConfig := Some (mkSortConfig "searchVolume" desc) |}.

(** ** The page with its timers

    The dataset loads and the infinite scroll go through [setTimeout].
    All load timers have the same delay (800 ms) and all scroll timers
    have the same delay (300 ms); timers of equal delay fire in the order
    in which they were set, so each kind is a first-in first-out queue.
    A load timer carries the category it was set for, a scroll timer the
    [filteredKeywords.length] that its closure captured.

    [generateMockKeywords] draws from [Math.random]: it is a function of
    the category and of the state of the random source, which it
    advances. *)

(** The [handleScroll] that the infinite scroll effect registers is a
    closure of the render in which the effect ran: it tests the
    [isLoadingMore], [visibleKeywords] and [filteredKeywords.length] of
    that render, which are also the dependencies of the effect. *)
Record ScrollClosure : Type := mkScrollClosure {
  capturedIsLoadingMore : bool;
  capturedVisibleKeywords : nat;
  capturedLength : nat
}.

Definition closureOf (st : PageState) : ScrollClosure :=
  mkScrollClosure st.(isLoadingMore) st.(visibleKeywords)
                  (List.length st.(filteredKeywords)).

Definition sameDependencies (a b : ScrollClosure) : bool :=
  Bool.eqb a.(capturedIsLoadingMore) b.(capturedIsLoadingMore)
  && (a.(capturedVisibleKeywords) =? b.(capturedVisibleKeywords))%nat
  && (a.(capturedLength) =? b.(capturedLength))%nat.

(** The infinite scroll effect after the render of [current] that
    follows the render of [previous], as a function of the listener that
    is on the container.  With unchanged dependencies the effect does not
    run and the listener stays.  Otherwise its cleanup removes the
    listener, and the effect adds the new [handleScroll] when
    [tableContainerRef.current] is set, which the render does only when
    [isLoading] is false.  (The spinner and the table container are both
    a [div] at the same place, so the element lives on when [isLoading]
    changes; only the ref is cleared and set.) *)
Definition infiniteScrollEffect (previous current : PageState)
    (listener : option ScrollClosure) : option ScrollClosure :=
  if sameDependencies (closureOf previous) (closureOf current) then listener
  else if current.(isLoading) then None
  else Some (closureOf current).

Section Engine.

Variable Rng : Type.
Variable generateMockKeywords : string -> Rng -> list Keyword.t * Rng.

Record World : Type := mkWorld {
  page : PageState;
  loadTimers : list string;
  loadMoreTimers : list nat;
  random : Rng;
  scrollListener : option ScrollClosure
}.

Definition onPage (f : PageState -> PageState) (w : World) : World :=
  mkWorld (f w.(page)) w.(loadTimers) w.(loadMoreTimers) w.(random)
          w.(scrollListener).

Definition setScrollListener (listener : option ScrollClosure) (w : World) : World :=
  mkWorld w.(page) w.(loadTimers) w.(loadMoreTimers) w.(random) listener.

(** Choosing a category in a picker: the part of [onValueChange] that
    starts the load of the keywords of [categoryId]. *)
Definition selectCategory (categoryId : string) (w : World) : World :=
  if JS.truthy categoryId
  then mkWorld (setIsLoading true w.(page))
               (w.(loadTimers) ++ [categoryId])%list
               w.(loadMoreTimers) w.(random) w.(scrollListener)
  else w.

(** The callback of the oldest load timer. *)
Definition loadTimeout (w : World) : World :=
  match w.(loadTimers) with
  | [] => w
  | categoryId :: rest =>
      let '(newKeywords, random') := generateMockKeywords categoryId w.(random) in
      mkWorld
        (setIsLoading false
           (setFilteredKeywords newKeywords
              (setKeywords newKeywords w.(page))))
        rest w.(loadMoreTimers) random' w.(scrollListener)
  end.

(** A scroll event on the table container, with the geometry of the
    container.  Without a listener nothing runs.  [handleScroll] returns
    at once when [tableContainerRef.current] is null, which is the case
    while [isLoading] holds; its guard then reads the values that the
    closure captured, and the timer it sets keeps the captured
    [filteredKeywords.length]. *)
Definition handleScroll (scrollTop clientHeight scrollHeight : Z) (w : World) : World :=
  match w.(scrollListener) with
  | None => w
  | Some closure =>
      if w.(page).(isLoading) then w
      else if (scrollHeight - 200 <=? scrollTop + clientHeight)%Z
              && negb closure.(capturedIsLoadingMore)
              && (closure.(capturedVisibleKeywords) <? closure.(capturedLength))%nat
      then mkWorld (setIsLoadingMore true w.(page)) w.(loadTimers)
                   (w.(loadMoreTimers) ++ [closure.(capturedLength)])%list
                   w.(random) w.(scrollListener)
      else w
  end.

(** The callback of the oldest scroll timer. *)
Definition loadMoreTimeout (w : World) : World :=
  match w.(loadMoreTimers) with
  | [] => w
  | captured :: rest =>
      let st := w.(page) in
      mkWorld
        (setIsLoadingMore false
           (setVisibleKeywords
              (Nat.min (st.(visibleKeywords) + 20) captured) st))
        w.(loadTimers) rest w.(random) w.(scrollListener)
  end.

(** The initial data loading effect, which runs once when the component
    mounts: [selectedCategories] then holds the default category, whose
    id is "1", and the effect sets the timer of its load while
    [isLoading] holds. *)
Definition initialDataLoadingEffect (w : World) : World :=
  if w.(page).(isLoading)
  then mkWorld w.(page) (w.(loadTimers) ++ ["1"])%list w.(loadMoreTimers)
               w.(random) w.(scrollListener)
  else w.

(** The component after its first render and its effects.  The first
    render shows the spinner, so the infinite scroll effect finds no
    container and adds no listener. *)
Definition initialWorld (r : Rng) : World :=
  initialDataLoadingEffect (mkWorld (filterAndSortEffect initialState) [] [] r None).

Inductive Event : Type :=
| SetSearchTerm (value : string)
| SetSearchVolumeFilter (value : string)
| SetMinSearchVolume (value : string)
| SetMaxSearchVolume (value : string)
| BrandFilterChange (value : string)
| SearchTypeFilterChange (value : string)
| CompetitionFilterChange (value : string)
| SetGenderFilter (value : string)
| AgeFilterChange (value : string)
| SetBestSellingMonthFilter (value : string)
| SetSearchVolumeIncreaseFilter (value : string)
| SetCustomSearchVolumeIncrease (value : string)
| Sort (columnId : string)
| ResetFilters
| SelectCategory (categoryId : string)
| Scroll (scrollTop clientHeight scrollHeight : Z)
| LoadTimeout
| LoadMoreTimeout.

(** The handler of an event, before the effects run. *)
Definition handle (e : Event) (w : World) : World :=
  match e with
  | SetSearchTerm v => onPage (setSearchTerm v) w
  | SetSearchVolumeFilter v => onPage (setSearchVolumeFilter v) w
  | SetMinSearchVolume v => onPage (setMinSearchVolume v) w
  | SetMaxSearchVolume v => onPage (setMaxSearchVolume v) w
  | BrandFilterChange v => onPage (handleBrandFilterChange v) w
  | SearchTypeFilterChange v => onPage (handleSearchTypeFilterChange v) w
  | CompetitionFilterChange v => onPage (handleCompetitionFilterChange v) w
  | SetGenderFilter v => onPage (setGenderFilter v) w
  | AgeFilterChange v => onPage (handleAgeFilterChange v) w
  | SetBestSellingMonthFilter v => onPage (setBestSellingMonthFilter v) w
  | SetSearchVolumeIncreaseFilter v => onPage (setSearchVolumeIncreaseFilter v) w
  | SetCustomSearchVolumeIncrease v => onPage (setCustomSearchVolumeIncrease v) w
  | Sort columnId => onPage (handleSort columnId) w
  | ResetFilters => onPage resetFilters w
  | SelectCategory categoryId => selectCategory categoryId w
  | Scroll t c h => handleScroll t c h w
  | LoadTimeout => loadTimeout w
  | LoadMoreTimeout => loadMoreTimeout w
  end.

(** Whether an event writes one of the dependencies of the
    filter-and-sort effect. *)
Definition touchesView (e : Event) : bool :=
  match e with
  | SelectCategory _ | Scroll _ _ _ | LoadMoreTimeout => false
  | _ => true
  end.

(** The state after the handler of an event and, when the handler wrote
    one of its dependencies, the filter-and-sort effect.  (React skips
    the effect when the value written is the one already held; the effect
    being a function of its dependencies, running it then stores the view
    it had stored before.) *)
Definition update (w : World) (e : Event) : World :=
  let w' := handle e w in
  if touchesView e then onPage filterAndSortEffect w' else w'.

(** The listener on the container after an event: the infinite scroll
    effect follows the render of the state that the handler left and,
    when the filter-and-sort effect stored a view, the render of that
    view. *)
Definition listenerAfter (w : World) (e : Event) : option ScrollClosure :=
  let handled := (handle e w).(page) in
  let listener := infiniteScrollEffect w.(page) handled w.(scrollListener) in
  if touchesView e
  then infiniteScrollEffect handled (filterAndSortEffect handled) listener
  else listener.

(** One event: its handler, then the effects of the renders that
    follow. *)
Definition step (w : World) (e : Event) : World :=
  setScrollListener (listenerAfter w e) (update w e).

Definition run (w : World) (events : list Event) : World :=
  fold_left step events w.

(** [loadMore]: a scroll to the bottom of the table followed by the
    timer it may have set. *)
Definition loadMore (w : World) : World :=
  step (step w (Scroll 0 0 0)) LoadMoreTimeout.

End Engine.

Arguments page {Rng} _.
Arguments loadTimers {Rng} _.
Arguments loadMoreTimers {Rng} _.
Arguments random {Rng} _.
Arguments mkWorld {Rng} _ _ _ _ _.
Arguments scrollListener {Rng} _.
Arguments setScrollListener {Rng} _ _.
Arguments onPage {Rng} _ _.
Arguments selectCategory {Rng} _ _.
Arguments loadTimeout {Rng} _ _.
Arguments handleScroll {Rng} _ _ _ _.
Arguments loadMoreTimeout {Rng} _.
Arguments initialDataLoadingEffect {Rng} _.
Arguments initialWorld {Rng} _.
Arguments handle {Rng} _ _ _.
Arguments update {Rng} _ _ _.
Arguments listenerAfter {Rng} _ _ _.
Arguments step {Rng} _ _ _.
Arguments run {Rng} _ _ _.
Arguments loadMore {Rng} _ _.

(** ** The criteria as predicates on one record

    Each dimension of the criteria as a test on a record: true when the
    dimension is not active, and otherwise what the callback of the
    corresponding block of the effect returns. *)

Definition textPredicate (st : PageState) (keyword : Keyword.t) : bool :=
  implb (JS.truthy st.(searchTerm))
    (JS.includes (JS.toLowerCase (Keyword.name keyword))
                 (JS.toLowerCase st.(searchTerm))).

Definition volumePredicate (st : PageState) (keyword : Keyword.t) : bool :=
  implb (JS.truthy st.(searchVolumeFilter))
    (if st.(searchVolumeFilter) =? "custom"
     then implb (JS.truthy st.(minSearchVolume))
            (JS.ge (Keyword.searchVolume keyword) (JS.parseInt st.(minSearchVolume)))
          && implb (JS.truthy st.(maxSearchVolume))
               (JS.le (Keyword.searchVolume keyword) (JS.parseInt st.(maxSearchVolume)))
     else JS.ge (Keyword.searchVolume keyword) (JS.parseInt st.(searchVolumeFilter))).

Definition brandPredicate (st : PageState) (keyword : Keyword.t) : bool :=
  implb (negb (JS.arrayIncludes st.(brandFilter) "all"))
    (let includeBrand := JS.arrayIncludes st.(brandFilter) "brand" in
     let includeNonBrand := JS.arrayIncludes st.(brandFilter) "non-brand" in
     if includeBrand && negb includeNonBrand then Keyword.isBrand keyword
     else if negb includeBrand && includeNonBrand then negb (Keyword.isBrand keyword)
     else true).

Definition searchTypePredicate (st : PageState) (keyword : Keyword.t) : bool :=
  implb (negb (JS.arrayIncludes st.(searchTypeFilter) "all"))
    (JS.arrayIncludes st.(searchTypeFilter)
       (searchTypeString (Keyword.searchType keyword))).

Definition competitionPredicate (st : PageState) (keyword : Keyword.t) : bool :=
  implb (negb (JS.arrayIncludes st.(competitionFilter) "all"))
    (JS.arrayIncludes st.(competitionFilter)
       (competitionLevelString (Keyword.competitionLevel keyword))).

(** The conjunction of the active predicates. *)
Definition satisfiesAll (st : PageState) (keyword : Keyword.t) : bool :=
  textPredicate st keyword
  && volumePredicate st keyword
  && brandPredicate st keyword
  && searchTypePredicate st keyword
  && competitionPredicate st keyword.

(** What each active dimension asks of a record, stated on the record
    and the criteria themselves: the lower-cased search term, as typed,
    occurs in the lower-cased name; the search volume lies on the right
    side of the number that [Number.parseInt] reads from the preset or
    from a non-empty bound; the brand flag is the one selected when
    exactly one of the two values is; the search type and the competition
    level are members of their sets. *)
Definition meetsText (st : PageState) (keyword : Keyword.t) : Prop :=
  st.(searchTerm) = ""
  \/ exists before after,
       JS.toLowerCase (Keyword.name keyword)
       = before ++ JS.toLowerCase st.(searchTerm) ++ after.

Definition atLeast (bound : string) (volume : Z) : Prop :=
  exists n, JS.parseInt bound = Some n /\ (n <= volume)%Z.

Definition atMost (bound : string) (volume : Z) : Prop :=
  exists n, JS.parseInt bound = Some n /\ (volume <= n)%Z.

Definition meetsVolume (st : PageState) (keyword : Keyword.t) : Prop :=
  let volume := Keyword.searchVolume keyword in
  st.(searchVolumeFilter) = ""
  \/ (st.(searchVolumeFilter) = "custom"
      /\ (st.(minSearchVolume) = "" \/ atLeast st.(minSearchVolume) volume)
      /\ (st.(maxSearchVolume) = "" \/ atMost st.(maxSearchVolume) volume))
  \/ (st.(searchVolumeFilter) <> "custom"
      /\ atLeast st.(searchVolumeFilter) volume).

Definition meetsBrand (st : PageState) (keyword : Keyword.t) : Prop :=
  let selected value := In value st.(brandFilter) in
  selected "all"
  \/ (selected "brand" /\ selected "non-brand")
  \/ (~ selected "brand" /\ ~ selected "non-brand")
  \/ (selected "brand" /\ Keyword.isBrand keyword = true)
  \/ (selected "non-brand" /\ Keyword.isBrand keyword = false).

Definition meetsSearchType (st : PageState) (keyword : Keyword.t) : Prop :=
  In "all" st.(searchTypeFilter)
  \/ In (searchTypeString (Keyword.searchType keyword)) st.(searchTypeFilter).

Definition meetsCompetition (st : PageState) (keyword : Keyword.t) : Prop :=
  In "all" st.(competitionFilter)
  \/ In (competitionLevelString (Keyword.competitionLevel keyword))
        st.(competitionFilter).

Definition meetsCriteria (st : PageState) (keyword : Keyword.t) : Prop :=
  meetsText st keyword
  /\ meetsVolume st keyword
  /\ meetsBrand st keyword
  /\ meetsSearchType st keyword
  /\ meetsCompetition st keyword.

(** [String.prototype.trim], and the text filter with the trimming that
    the specification describes, for comparison with [applySearchTerm]. *)
Fixpoint trimEnd (s : string) : string :=
  match s with
  | EmptyString => EmptyString
  | String c s' =>
      match trimEnd s' with
      | EmptyString => if JS.isWhiteSpace c then EmptyString else String c EmptyString
      | r => String c r
      end
  end.

Definition trim (s : string) : string := trimEnd (JS.trimStart s).

Definition trimmedTextFilter (searchTerm : string) (dataset : list Keyword.t)
    : list Keyword.t :=
  if JS.truthy searchTerm
  then filter (fun keyword =>
                 JS.includes (JS.toLowerCase (Keyword.name keyword))
                             (JS.toLowerCase (trim searchTerm))) dataset
  else dataset.

(** The predicates of the criteria in the words of the specification,
    for comparison with [satisfiesAll]: the text predicate looks for the
    trimmed, lower-cased search term, and in custom-range mode a bound
    constrains its side when it is set, a bound that is no number
    counting as not set.  The brand, search type and competition
    predicates are those of the effect. *)
Definition specifiedTextPredicate (st : PageState) (keyword : Keyword.t) : bool :=
  implb (JS.truthy st.(searchTerm))
    (JS.includes (JS.toLowerCase (Keyword.name keyword))
                 (JS.toLowerCase (trim st.(searchTerm)))).

Definition specifiedVolumePredicate (st : PageState) (keyword : Keyword.t) : bool :=
  implb (JS.truthy st.(searchVolumeFilter))
    (if st.(searchVolumeFilter) =? "custom"
     then match JS.parseInt st.(minSearchVolume) with
          | Some minimum => (minimum <=? Keyword.searchVolume keyword)%Z
          | None => true
          end
          && match JS.parseInt st.(maxSearchVolume) with
             | Some maximum => (Keyword.searchVolume keyword <=? maximum)%Z
             | None => true
             end
     else JS.ge (Keyword.searchVolume keyword) (JS.parseInt st.(searchVolumeFilter))).

Definition satisfiesAllAsSpecified (st : PageState) (keyword : Keyword.t) : bool :=
  specifiedTextPredicate st keyword
  && specifiedVolumePredicate st keyword
  && brandPredicate st keyword
  && searchTypePredicate st keyword
  && competitionPredicate st keyword.

(** ** The number inputs of the custom range

    The two bounds are typed into [Input] elements of type number, whose
    [onChange] stores [e.target.value].  [Input] hands its properties to
    an [input] element, and the value of an [input] of type number is
    the text of the field when that text is a valid floating-point
    number and the empty string otherwise: an optional minus sign, then
    digits, or digits with a fraction, or a fraction alone, then an
    optional exponent. *)
Module NumberInput.

Definition isDigit (c : ascii) : bool :=
  let n := N_of_ascii c in ((48 <=? n) && (n <=? 57))%N.

Fixpoint skipDigits (s : string) : string :=
  match s with
  | EmptyString => EmptyString
  | String c s' => if isDigit c then skipDigits s' else s
  end.

(** What follows a run of one or more digits at the start of [s], if
    there is one. *)
Definition afterDigits (s : string) : option string :=
  match s with
  | EmptyString => None
  | String c s' => if isDigit c then Some (skipDigits s') else None
  end.

Definition afterFraction (s : string) : option string :=
  match s with
  | String "." s' => afterDigits s'
  | _ => None
  end.

Definition afterMantissa (s : string) : option string :=
  match afterDigits s with
  | Some rest =>
      match rest with
      | String "." _ => afterFraction rest
      | _ => Some rest
      end
  | None => afterFraction s
  end.

Definition isExponent (s : string) : bool :=
  match s with
  | String "e" s' | String "E" s' =>
      let digits :=
        match s' with
        | String "-" s'' | String "+" s'' => s''
        | _ => s'
        end in
      match afterDigits digits with
      | Some EmptyString => true
      | _ => false
      end
  | _ => false
  end.

Definition validFloatingPointNumber (text : string) : bool :=
  let unsigned :=
    match text with
    | String "-" s => s
    | _ => text
    end in
  match afterMantissa unsigned with
  | Some EmptyString => true
  | Some rest => isExponent rest
  | None => false
  end.

Definition value (text : string) : string :=
  if validFloatingPointNumber text then text else "".

End NumberInput.

(** The [onChange] handlers of the two inputs, on the text of the
    field. *)
Definition onMinSearchVolumeChange (text : string) (st : PageState) : PageState :=
  setMinSearchVolume (NumberInput.value text) st.

Definition onMaxSearchVolumeChange (text : string) (st : PageState) : PageState :=
  setMaxSearchVolume (NumberInput.value text) st.

(** The same key value in two records. *)
Definition fieldValue_eq_dec (x y : Sorting.FieldValue) : {x = y} + {x <> y}.
Proof.
  decide equality;
    try apply string_dec; try apply Z.eq_dec; try apply bool_dec;
    apply list_eq_dec; apply Z.eq_dec.
Defined.

Definition sameKey (key : string) (a b : Keyword.t) : bool :=
  if fieldValue_eq_dec (Sorting.getField a key) (Sorting.getField b key)
  then true else false.

(** ** Sample data for the concrete runs

    A deterministic stand-in for [generateMockKeywords]: forty records
    per batch, in descending order of search volume; the state of the
    random source is the number of batches drawn so far. *)

Definition sampleKeyword (categoryId : string) (i : nat) : Keyword.t :=
  Keyword.mk
    (categoryId ++ "-kw-" ++ Sorting.numberToString (Z.of_nat i))
    ("Keyword " ++ Sorting.numberToString (Z.of_nat i))
    (1000 * Z.of_nat i)%Z
    100%Z
    CompetitionLow
    (repeat 0%Z 12)
    (Nat.even i)
    Shopping.

Definition sampleGenerator (categoryId : string) (drawn : nat) : list Keyword.t * nat :=
  (map (sampleKeyword categoryId) (rev (seq 1 40)), S drawn).

(** The events that change the criteria or the sort specification. *)
Definition changesCriteriaOrSort (e : Event) : bool :=
  match e with
  | SetSearchTerm _ | SetSearchVolumeFilter _ | SetMinSearchVolume _
  | SetMaxSearchVolume _ | BrandFilterChange _ | SearchTypeFilterChange _
  | CompetitionFilterChange _ | Sort _ | ResetFilters => true
  | _ => false
  end.

(** The events that only write the gender, age, best selling month or
    search volume increase variables. *)
Definition placeholderOnly (e : Event) : bool :=
  match e with
  | SetGenderFilter _ | AgeFilterChange _ | SetBestSellingMonthFilter _
  | SetSearchVolumeIncreaseFilter _ | SetCustomSearchVolumeIncrease _ => true
  | _ => false
  end.

(** The shape the inclusion sets are meant to keep: the sentinel alone, or
    a non-empty set of specific values. *)
Definition allSentinel (s : list string) : Prop :=
  s = ["all"] \/ (s <> [] /\ ~ In "all" s).

(** A load whose timer fires while a newer load is pending leaves the
    dataset as it is: what discarding a superseded load would mean. *)
Definition staleLoadDiscarded
    {Rng : Type} (generateMockKeywords : string -> Rng -> list Keyword.t * Rng) : Prop :=
  forall (w : World Rng) (stale : string) (newer : list string),
    loadTimers w = stale :: newer ->
    newer <> [] ->
    keywords (page (step generateMockKeywords w LoadTimeout)) = keywords (page w).

(** The page with the gender, age, best selling month and search volume
    increase variables put back to their initial values, and the worlds
    that differ at most in these variables. *)
Definition clearPlaceholders (st : PageState) : PageState :=
  setCustomSearchVolumeIncrease ""
    (setSearchVolumeIncreaseFilter ""
       (setBestSellingMonthFilter ""
          (setAgeFilter []
             (setGenderFilter "all" st)))).

Definition sameEngineState {Rng : Type} (w w' : World Rng) : Prop :=
  clearPlaceholders (page w) = clearPlaceholders (page w')
  /\ loadTimers w = loadTimers w'
  /\ loadMoreTimers w = loadMoreTimers w'
  /\ random w = random w'
  /\ scrollListener w = scrollListener w'.

(** The stored view is the one the effect computes from the current
    state. *)
Definition settled (st : PageState) : Prop :=
  st.(filteredKeywords) = filterAndSort st.

(** Three records for the concrete runs of the filters and of the sort. *)
Definition recordA : Keyword.t :=
  Keyword.mk "1-kw-1" "a" 5000 100 CompetitionLow (repeat 0%Z 12) false Shopping.

Definition recordShoes : Keyword.t :=
  Keyword.mk "1-kw-2" "Blue Shoes" 12000 100 CompetitionHigh (repeat 0%Z 12) true Shopping.

Definition recordBag : Keyword.t :=
  Keyword.mk "1-kw-3" "Bag" 800 100 CompetitionLow (repeat 0%Z 12) false Informational.

(** The page in custom-range mode with the given bounds, over a dataset. *)
Definition customRange (minimum maximum : string) (dataset : list Keyword.t) : PageState :=
  setKeywords dataset
    (setMaxSearchVolume maximum
       (setMinSearchVolume minimum
          (setSearchVolumeFilter "custom" initialState))).

(** The page after the initial load has completed. *)
Definition loadedWorld : World nat :=
  run sampleGenerator (initialWorld 0) [LoadTimeout].

(** The page after the initial load and one completed growth of the
    window. *)
Definition grownWorld : World nat :=
  run sampleGenerator (initialWorld 0)
    [LoadTimeout; Scroll 2000 800 2800; LoadMoreTimeout].

(** The page after the initial load, one completed growth of the window
    and a search term that keeps eleven of the forty records. *)
Definition narrowedWorld : World nat :=
  run sampleGenerator (initialWorld 0)
    [LoadTimeout; Scroll 2000 800 2800; LoadMoreTimeout;
     SetSearchTerm "keyword 1"].

(** ** Invariants *)

(** [x] may stand before [y] under a comparison function. *)
Definition mayPrecede {A : Type} (compare : A -> A -> Z) (x y : A) : Prop :=
  (compare x y <= 0)%Z.

(** The window never shrinks below the initial page size, every pending
    scroll timer captured a longer view, and the listener captured a
    visible count of at least the initial page size. *)
Definition windowInvariant {Rng : Type} (w : World Rng) : Prop :=
  30 <= visibleKeywords (page w)
  /\ Forall (fun captured => 30 < captured) (loadMoreTimers w)
  /\ (forall closure,
        scrollListener w = Some closure ->
        30 <= capturedVisibleKeywords closure).

(** The three inclusion sets have the shape [allSentinel]. *)
Definition sentinelInvariant {Rng : Type} (w : World Rng) : Prop :=
  allSentinel (brandFilter (page w))
  /\ allSentinel (searchTypeFilter (page w))
  /\ allSentinel (competitionFilter (page w)).

(** The load of [categoryId] is the newest pending one, or it has
    completed, no load is pending and the dataset is its batch. *)
Definition newestLoad {Rng : Type}
    (generateMockKeywords : string -> Rng -> list Keyword.t * Rng)
    (categoryId : string) (w : World Rng) : Prop :=
  (exists older, loadTimers w = (older ++ [categoryId])%list)
  \/ (loadTimers w = []
      /\ exists r, keywords (page w) = fst (generateMockKeywords categoryId r)).

(** ** The category tree and the lookup of a category name *)

(** The [Category] interface; its optional [hasChildren] flag is neither
    set nor read anywhere and is left out. *)
Module Category.
#[local] Unset Elimination Schemes.
Inductive t : Type := mk {
  id : string;
  name : string;
  level : Z;
  parentId : option string;
  children : option (list t)
}.
#[local] Set Elimination Schemes.
End Category.

(** [mockCategories], as the source lists it. *)
Definition leafCategory (id name : string) (level : Z) (parentId : string) : Category.t :=
  Category.mk id name level (Some parentId) None.

Definition mockCategories : list Category.t :=
  [ Category.mk "1" "패션의류" 1 None (Some
      [ Category.mk "1-1" "여성의류" 2 (Some "1") (Some
          [ Category.mk "1-1-1" "원피스" 3 (Some "1-1") (Some
              [ leafCategory "1-1-1-1" "미니 원피스" 4 "1-1-1";
                leafCategory "1-1-1-2" "맥시 원피스" 4 "1-1-1" ]);
            leafCategory "1-1-2" "티셔츠" 3 "1-1";
            leafCategory "1-1-3" "블라우스/셔츠" 3 "1-1" ]);
        Category.mk "1-2" "남성의류" 2 (Some "1") (Some
          [ leafCategory "1-2-1" "티셔츠" 3 "1-2";
            leafCategory "1-2-2" "셔츠" 3 "1-2";
            leafCategory "1-2-3" "바지" 3 "1-2" ]) ]);
    Category.mk "2" "가구/인테리어" 1 None (Some
      [ Category.mk "2-1" "침실가구" 2 (Some "2") (Some
          [ Category.mk "2-1-1" "침대" 3 (Some "2-1") (Some
              [ leafCategory "2-1-1-1" "싱글 침대" 4 "2-1-1";
                leafCategory "2-1-1-2" "더블 침대" 4 "2-1-1";
                leafCategory "2-1-1-3" "퀸 침대" 4 "2-1-1" ]);
            leafCategory "2-1-2" "매트리스" 3 "2-1";
            leafCategory "2-1-3" "옷장" 3 "2-1" ]);
        Category.mk "2-2" "거실가구" 2 (Some "2") (Some
          [ leafCategory "2-2-1" "소파" 3 "2-2";
            leafCategory "2-2-2" "테이블" 3 "2-2";
            leafCategory "2-2-3" "의자" 3 "2-2" ]) ]) ].

(** One turn of the loop of [findCategoryName] on [category]: [Some] of
    the value the function returns from inside the loop, or [None] when
    the loop goes on to the next category.  The search of the children is
    the same loop over them. *)
Fixpoint visitCategory (categoryId : string) (category : Category.t) : option string :=
  if Category.id category =? categoryId then Some (Category.name category)
  else
    match Category.children category with
    | Some children =>
        let name :=
          (fix loop (categories : list Category.t) : string :=
             match categories with
             | [] => ""
             | child :: rest =>
                 match visitCategory categoryId child with
                 | Some result => result
                 | None => loop rest
                 end
             end) children in
        if JS.truthy name then Some name else None
    | None => None
    end.

Fixpoint findCategoryName (categoryId : string) (categories : list Category.t) : string :=
  match categories with
  | [] => ""
  | category :: rest =>
      match visitCategory categoryId category with
      | Some result => result
      | None => findCategoryName categoryId rest
      end
  end.

(** The categories of a forest, parents before their children. *)
Fixpoint categoryNodes (category : Category.t) : list Category.t :=
  category
  :: match Category.children category with
     | Some children => flat_map categoryNodes children
     | None => []
     end.

Definition allCategories (categories : list Category.t) : list Category.t :=
  flat_map categoryNodes categories.

(** Pairwise distinct strings, as a test. *)
Fixpoint distinct (l : list string) : bool :=
  match l with
  | [] => true
  | x :: l' => negb (JS.arrayIncludes l' x) && distinct l'
  end.

(** ** The category pickers

    The [selectedCategories] and [categoryOptions] variables, and the
    [onValueChange] handler of the picker rendered for [option]: the
    selection and the pickers are updated, then the load of the keywords of
    the chosen category starts. *)

Record SelectedCategory : Type := mkSelectedCategory {
  selectedId : string;
  selectedName : string;
  selectedLevel : Z
}.

Record CategoryOption : Type := mkCategoryOption {
  optionLevel : Z;
  optionCategories : list Category.t
}.

Record Pickers : Type := mkPickers {
  selectedCategories : list SelectedCategory;
  categoryOptions : list CategoryOption
}.

Definition initialPickers : Pickers :=
  {| selectedCategories := [mkSelectedCategory "1" "패션의류" 1];
     categoryOptions := [mkCategoryOption 1 mockCategories] |}.

Definition onValueChange {Rng : Type}
    (option : CategoryOption) (value : string) (state : Pickers * World Rng)
    : Pickers * World Rng :=
  let '(pickers, w) := state in
  match find (fun c => Category.id c =? value) option.(optionCategories) with
  | None => state
  | Some selectedCategory =>
      let newSelectedCategories :=
        (filter (fun c => (c.(selectedLevel) <? option.(optionLevel))%Z)
                pickers.(selectedCategories)
         ++ [mkSelectedCategory (Category.id selectedCategory)
                                (Category.name selectedCategory)
                                option.(optionLevel)])%list in
      let keptOptions :=
        filter (fun o => (o.(optionLevel) <=? option.(optionLevel))%Z)
               pickers.(categoryOptions) in
      let newCategoryOptions :=
        match Category.children selectedCategory with
        | Some (child :: others) =>
            (keptOptions
             ++ [mkCategoryOption (option.(optionLevel) + 1) (child :: others)])%list
        | _ => keptOptions
        end in
      (mkPickers newSelectedCategories newCategoryOptions,
       selectCategory (Category.id selectedCategory) w)
  end.

(** A choice in the picker rendered at a position of [categoryOptions];
    there is no picker at a position beyond the list. *)
Definition pick {Rng : Type} (state : Pickers * World Rng) (choice : nat * string)
    : Pickers * World Rng :=
  match nth_error (fst state).(categoryOptions) (fst choice) with
  | Some option => onValueChange option (snd choice) state
  | None => state
  end.

Definition pickAll {Rng : Type} (state : Pickers * World Rng)
    (choices : list (nat * string)) : Pickers * World Rng :=
  fold_left pick choices state.

(** The levels 1, 2, ..., n. *)
Definition levelsTo (n : nat) : list Z := map Z.of_nat (seq 1 n).

(** ** The reordering of the columns

    [Array.prototype.findIndex] and [Array.prototype.splice] with one
    optional inserted element, then [handleDragEnd] on the identifiers of
    the dragged column and of the column it is dropped on (a drag that ends
    without a drop target is not modelled).  The result is [None] when the
    array would hold [undefined], which happens for an empty array only. *)

Fixpoint findIndex {A : Type} (test : A -> bool) (items : list A) : Z :=
  match items with
  | [] => (-1)%Z
  | x :: rest =>
      if test x then 0%Z
      else
        let i := findIndex test rest in
        if (i <? 0)%Z then (-1)%Z else (i + 1)%Z
  end.

(** [items.splice(start, deleteCount, ...inserted)]: the elements removed
    and the array left. *)
Definition splice {A : Type} (start deleteCount : Z) (inserted : list A) (items : list A)
    : list A * list A :=
  let len := Z.of_nat (List.length items) in
  let actualStart :=
    if (start <? 0)%Z then Z.max (len + start) 0 else Z.min start len in
  let actualDeleteCount := Z.min (Z.max deleteCount 0) (len - actualStart) in
  let before := firstn (Z.to_nat actualStart) items in
  let from := skipn (Z.to_nat actualStart) items in
  (firstn (Z.to_nat actualDeleteCount) from,
   (before ++ inserted ++ skipn (Z.to_nat actualDeleteCount) from)%list).

Definition handleDragEnd {A : Type} (getId : A -> string)
    (activeId overId : string) (items : list A) : option (list A) :=
  if negb (activeId =? overId)
  then
    let oldIndex := findIndex (fun item => getId item =? activeId) items in
    let newIndex := findIndex (fun item => getId item =? overId) items in
    let '(removedItems, newItems) := splice oldIndex 1 [] items in
    match removedItems with
    | removed :: _ => Some (snd (splice newIndex 0 [removed] newItems))
    | [] => None
    end
  else Some items.

(** ** The filters in use *)

(** [hasActiveFilters]. *)
Definition hasActiveFilters (st : PageState) : bool :=
  negb (st.(searchTerm) =? "")
  || negb (st.(searchVolumeFilter) =? "")
  || negb (JS.arrayIncludes st.(brandFilter) "all")
  || negb (JS.arrayIncludes st.(searchTypeFilter) "all")
  || negb (JS.arrayIncludes st.(competitionFilter) "all")
  || negb (st.(genderFilter) =? "all")
  || (0 <? List.length st.(ageFilter))%nat
  || negb (st.(bestSellingMonthFilter) =? "")
  || negb (st.(searchVolumeIncreaseFilter) =? "").

(** Every value of a dimension is in the inclusion set. *)
Definition includesEverySearchType (s : list string) : bool :=
  JS.arrayIncludes s (searchTypeString Shopping)
  && JS.arrayIncludes s (searchTypeString Informational).

Definition includesEveryCompetitionLevel (s : list string) : bool :=
  JS.arrayIncludes s (competitionLevelString CompetitionLow)
  && JS.arrayIncludes s (competitionLevelString CompetitionMedium)
  && JS.arrayIncludes s (competitionLevelString CompetitionHigh).

(** ** More invariants of the page *)

(** The listener on the container is the [handleScroll] of the current
    render. *)
Definition listenerInvariant {Rng : Type} (w : World Rng) : Prop :=
  forall closure,
    scrollListener w = Some closure -> closure = closureOf (page w).

(** A load is pending whenever [isLoading] holds. *)
Definition loadingInvariant {Rng : Type} (w : World Rng) : Prop :=
  isLoading (page w) = true -> loadTimers w <> [].

(** The shape the pickers keep: the selection is a chain of levels
    1, ..., m, the pickers shown are those of the levels 1, ..., k with k at
    most one more than m, every category offered or selected is a category
    of [mockCategories]. *)
Definition pickersInvariant (p : Pickers) : Prop :=
  (exists m k,
      map selectedLevel p.(selectedCategories) = levelsTo m
      /\ map optionLevel p.(categoryOptions) = levelsTo k
      /\ 1 <= m /\ m <= k /\ k <= m + 1)
  /\ (forall o c, In o p.(categoryOptions) -> In c o.(optionCategories) ->
                  In c (allCategories mockCategories))
  /\ (forall s, In s p.(selectedCategories) ->
                exists c, In c (allCategories mockCategories)
                          /\ Category.id c = s.(selectedId)
                          /\ Category.name c = s.(selectedName)).

(** The keys that name a field of a [Keyword]. *)
Definition isKeywordField (key : string) : bool :=
  JS.arrayIncludes
    ["id"; "name"; "searchVolume"; "productCount"; "competitionLevel";
     "trendData"; "isBrand"; "searchType"] key.

(** No value listed twice in the four multi-select variables. *)
Definition selectionsDistinct (st : PageState) : Prop :=
  NoDup st.(brandFilter) /\ NoDup st.(searchTypeFilter)
  /\ NoDup st.(competitionFilter) /\ NoDup st.(ageFilter).

(** * Properties *)

(** ** Lists and strings *)

Lemma filter_twice {A : Type} (f g : A -> bool) (l : list A) :
  filter f (filter g l) = filter (fun x => g x && f x) l.
Proof.
  induction l as [| x l IH]; simpl; [reflexivity |].
  destruct (g x); simpl; [destruct (f x) |]; now rewrite IH.
Qed.

Lemma filter_when {A : Type} (b : bool) (p : A -> bool) (l : list A) :
  (if b then filter p l else l) = filter (fun x => implb b (p x)) l.
Proof.
  destruct b; simpl; [reflexivity |].
  induction l as [| x l IH]; simpl; [reflexivity | now rewrite <- IH].
Qed.

Lemma filter_all {A : Type} (l : list A) : filter (fun _ => true) l = l.
Proof. induction l as [| x l IH]; simpl; [reflexivity | now rewrite IH]. Qed.

Lemma filter_none {A : Type} (p : A -> bool) (l : list A) :
  (forall x, In x l -> p x = false) -> filter p l = [].
Proof.
  induction l as [| x l IH]; simpl; intros H; [reflexivity |].
  rewrite (H x (or_introl eq_refl)). apply IH. intros y Hy. apply H. now right.
Qed.

Lemma count_occ_filter {A : Type} (dec : forall a b : A, {a = b} + {a <> b})
    (p : A -> bool) (l : list A) (x : A) :
  count_occ dec (filter p l) x = if p x then count_occ dec l x else 0.
Proof.
  induction l as [| y l IH]; simpl.
  - now destruct (p x).
  - destruct (p y) eqn:Hy; simpl.
    + destruct (dec y x) as [-> | Hne].
      * rewrite Hy in *. now rewrite IH.
      * exact IH.
    + destruct (dec y x) as [-> | Hne].
      * rewrite Hy in *. exact IH.
      * exact IH.
Qed.

Lemma prefix_iff (p s : string) :
  prefix p s = true <-> exists post, s = p ++ post.
Proof.
  revert s. induction p as [| c p IH]; intros s.
  - split; [intros _; now exists s | intros _; now destruct s].
  - destruct s as [| d s]; simpl.
    + split; [discriminate | intros [post H]; discriminate].
    + destruct (ascii_dec c d) as [-> | Hne].
      * rewrite IH. split; intros [post H]; exists post.
        -- now rewrite H.
        -- now injection H.
      * split; [discriminate | intros [post H]]. injection H as H1 H2.
        now elim Hne.
Qed.

(** [includes] decides the occurrence of one string inside another. *)
Lemma includes_iff (s searchString : string) :
  JS.includes s searchString = true
  <-> exists pre post, s = pre ++ searchString ++ post.
Proof.
  induction s as [| c s IH].
  - change (JS.includes "" searchString) with (prefix searchString "" || false).
    rewrite orb_false_r, prefix_iff. split.
    + intros [post H]. now exists "", post.
    + intros [pre [post H]]. destruct pre; simpl in H; [now exists post |].
      discriminate.
  - change (JS.includes (String c s) searchString)
      with (prefix searchString (String c s) || JS.includes s searchString).
    rewrite orb_true_iff, prefix_iff, IH. split.
    + intros [[post H] | [pre [post H]]].
      * now exists "", post.
      * exists (String c pre), post. simpl. now rewrite H.
    + intros [pre [post H]]. destruct pre as [| d pre]; simpl in H.
      * left. now exists post.
      * right. injection H as _ H. now exists pre, post.
Qed.

(** The built-ins on a few inputs. *)
Example parseInt_values :
  JS.parseInt "10000" = Some 10000%Z
  /\ JS.parseInt "  42px" = Some 42%Z
  /\ JS.parseInt "-5" = Some (-5)%Z
  /\ JS.parseInt "0x1F" = Some 31%Z
  /\ JS.parseInt "" = None
  /\ JS.parseInt "abc" = None
  /\ JS.parseInt ".5" = None.
Proof. repeat split. Qed.

Example toLowerCase_includes_values :
  JS.toLowerCase "Blue Shoes 9" = "blue shoes 9"
  /\ JS.includes "blue shoes" "shoes" = true
  /\ JS.includes "blue shoes" "" = true
  /\ JS.includes "blue shoes" "Shoes" = false
  /\ trim "  a b  " = "a b".
Proof. repeat split. Qed.

Example handleSort_values :
  sortConfig (handleSort "searchVolume" initialState)
  = Some (mkSortConfig "searchVolume" asc)
  /\ sortConfig (handleSort "name" initialState) = Some (mkSortConfig "name" desc)
  /\ sortConfig (handleSort "searchVolume" (handleSort "searchVolume" initialState))
     = sortConfig initialState.
Proof. repeat split. Qed.

Example toggleInclusion_values :
  toggleInclusion ["all"] "brand" = ["brand"]
  /\ toggleInclusion ["brand"] "non-brand" = ["brand"; "non-brand"]
  /\ toggleInclusion ["brand"; "non-brand"] "brand" = ["non-brand"]
  /\ toggleInclusion ["non-brand"] "non-brand" = ["all"]
  /\ toggleInclusion ["brand"; "non-brand"] "all" = ["all"].
Proof. repeat split. Qed.

(** ** The filter stage is one conjunctive filter *)

Lemma applySearchTerm_filter (st : PageState) (l : list Keyword.t) :
  applySearchTerm st.(searchTerm) l = filter (textPredicate st) l.
Proof. unfold applySearchTerm, textPredicate. apply filter_when. Qed.

Lemma applySearchVolume_filter (st : PageState) (l : list Keyword.t) :
  applySearchVolume st.(searchVolumeFilter) st.(minSearchVolume)
    st.(maxSearchVolume) l
  = filter (volumePredicate st) l.
Proof.
  unfold applySearchVolume, volumePredicate.
  destruct (JS.truthy (searchVolumeFilter st)); simpl;
    [| now rewrite filter_all].
  destruct (searchVolumeFilter st =? "custom"); [| reflexivity].
  now rewrite !filter_when, filter_twice.
Qed.

Lemma applyBrand_filter (st : PageState) (l : list Keyword.t) :
  applyBrand st.(brandFilter) l = filter (brandPredicate st) l.
Proof.
  unfold applyBrand, brandPredicate.
  destruct (negb (JS.arrayIncludes (brandFilter st) "all")); simpl;
    [| now rewrite filter_all].
  destruct (JS.arrayIncludes (brandFilter st) "brand"),
    (JS.arrayIncludes (brandFilter st) "non-brand"); simpl;
    try reflexivity; now rewrite filter_all.
Qed.

Lemma applySearchType_filter (st : PageState) (l : list Keyword.t) :
  applySearchType st.(searchTypeFilter) l = filter (searchTypePredicate st) l.
Proof. unfold applySearchType, searchTypePredicate. apply filter_when. Qed.

Lemma applyCompetition_filter (st : PageState) (l : list Keyword.t) :
  applyCompetition st.(competitionFilter) l = filter (competitionPredicate st) l.
Proof. unfold applyCompetition, competitionPredicate. apply filter_when. Qed.

Lemma applyMockFilters_id (g : string) (a : list string) (m i : string)
    (l : list Keyword.t) :
  applyMockFilters g a m i l = l.
Proof.
  unfold applyMockFilters.
  destruct (negb (g =? "all")), (0 <? List.length a)%nat, (JS.truthy m), (JS.truthy i);
    reflexivity.
Qed.

Lemma filterStage_filter (st : PageState) :
  filterStage st = filter (satisfiesAll st) st.(keywords).
Proof.
  unfold filterStage, satisfiesAll.
  rewrite applyMockFilters_id, applyCompetition_filter, applySearchType_filter,
    applyBrand_filter, applySearchVolume_filter, applySearchTerm_filter.
  rewrite !filter_twice.
  apply filter_ext. intros keyword. now rewrite !andb_assoc.
Qed.

(** ** The stable sort *)

Section SortFacts.

Context {A : Type}.
Variable compare : A -> A -> Z.

Lemma insert_permutation (x : A) (l : list A) :
  Permutation (Sorting.insert compare x l) (x :: l).
Proof.
  induction l as [| y l IH]; simpl; [apply Permutation_refl |].
  destruct (0 <? compare x y)%Z; [| apply Permutation_refl].
  eapply perm_trans; [apply perm_skip, IH | apply perm_swap].
Qed.

Lemma sort_permutation (l : list A) : Permutation (Sorting.sort compare l) l.
Proof.
  induction l as [| x l IH]; simpl; [constructor |].
  eapply perm_trans; [apply insert_permutation | now apply perm_skip].
Qed.

(** A sorted array is left as it is. *)
Lemma sort_sorted_input (l : list A) :
  Sorted (mayPrecede compare) l -> Sorting.sort compare l = l.
Proof.
  induction 1 as [| x l Hl IH Hhd]; simpl; [reflexivity |].
  rewrite IH. destruct Hhd as [| y l' Hxy]; simpl; [reflexivity |].
  unfold mayPrecede in Hxy.
  destruct (0 <? compare x y)%Z eqn:E; [| reflexivity].
  apply Z.ltb_lt in E. lia.
Qed.

(** Records that the comparison function does not separate keep their
    order: [keep] selects a class of such records. *)
Lemma insert_stable (keep : A -> bool) (x : A) (l : list A) :
  (forall a b, keep a = true -> keep b = true -> (compare a b <= 0)%Z) ->
  filter keep (Sorting.insert compare x l) = filter keep (x :: l).
Proof.
  intros Hclass. induction l as [| y l IH]; [reflexivity |].
  simpl. destruct (0 <? compare x y)%Z eqn:E; [| reflexivity].
  apply Z.ltb_lt in E. simpl. rewrite IH. simpl.
  destruct (keep x) eqn:Hx, (keep y) eqn:Hy; try reflexivity.
  specialize (Hclass x y Hx Hy). lia.
Qed.

Lemma sort_stable (keep : A -> bool) (l : list A) :
  (forall a b, keep a = true -> keep b = true -> (compare a b <= 0)%Z) ->
  filter keep (Sorting.sort compare l) = filter keep l.
Proof.
  intros Hclass. induction l as [| x l IH]; [reflexivity |].
  simpl Sorting.sort. rewrite insert_stable by assumption.
  simpl. now rewrite IH.
Qed.

(** When a pair that is out of order is in order the other way round,
    the result is sorted and sorting it again changes nothing. *)
Hypothesis compare_asym : forall x y, (0 < compare x y)%Z -> (compare y x <= 0)%Z.

Lemma insert_sorted (x : A) (l : list A) :
  Sorted (mayPrecede compare) l -> Sorted (mayPrecede compare) (Sorting.insert compare x l).
Proof.
  induction 1 as [| y l Hl IH Hhd]; simpl.
  - repeat constructor.
  - destruct (0 <? compare x y)%Z eqn:E.
    + apply Z.ltb_lt in E. constructor; [exact IH |].
      destruct Hhd as [| z l' Hyz]; simpl.
      * constructor. now apply compare_asym.
      * destruct (0 <? compare x z)%Z; constructor;
          [exact Hyz | now apply compare_asym].
    + apply Z.ltb_ge in E. repeat constructor; assumption.
Qed.

Lemma sort_sorted (l : list A) : Sorted (mayPrecede compare) (Sorting.sort compare l).
Proof.
  induction l as [| x l IH]; simpl; [constructor | now apply insert_sorted].
Qed.

Lemma sort_idempotent (l : list A) :
  Sorting.sort compare (Sorting.sort compare l) = Sorting.sort compare l.
Proof. apply sort_sorted_input, sort_sorted. Qed.

End SortFacts.

(** The comparison of field values is irreflexive and asymmetric. *)
Lemma string_ltb_irrefl (s : string) : String.ltb s s = false.
Proof.
  unfold String.ltb.
  pose proof (String.compare_antisym s s) as H.
  now destruct (String.compare s s).
Qed.

Lemma string_ltb_asym (s t : string) :
  String.ltb s t = true -> String.ltb t s = false.
Proof.
  unfold String.ltb. rewrite (String.compare_antisym s t).
  now destruct (String.compare t s).
Qed.

Lemma less_irrefl (v : Sorting.FieldValue) : Sorting.less v v = false.
Proof.
  destruct v; simpl; try reflexivity;
    try apply string_ltb_irrefl; apply Z.ltb_irrefl.
Qed.

Lemma less_asym (x y : Sorting.FieldValue) :
  Sorting.less x y = true -> Sorting.less y x = false.
Proof.
  destruct x, y; simpl; try discriminate;
    try apply string_ltb_asym; rewrite Z.ltb_lt, Z.ltb_ge; lia.
Qed.

Lemma compareFn_asym (cfg : SortConfig) (a b : Keyword.t) :
  (0 < Sorting.compareFn cfg a b)%Z -> (Sorting.compareFn cfg b a <= 0)%Z.
Proof.
  unfold Sorting.compareFn.
  destruct (Sorting.less (Sorting.getField a (key cfg)) (Sorting.getField b (key cfg))) eqn:Hab.
  - rewrite (less_asym _ _ Hab). destruct (direction cfg); lia.
  - destruct (Sorting.less (Sorting.getField b (key cfg)) (Sorting.getField a (key cfg)));
      destruct (direction cfg); lia.
Qed.

Lemma compareFn_sameKey (cfg : SortConfig) (r a b : Keyword.t) :
  sameKey (key cfg) r a = true ->
  sameKey (key cfg) r b = true ->
  (Sorting.compareFn cfg a b <= 0)%Z.
Proof.
  unfold sameKey, Sorting.compareFn.
  destruct (fieldValue_eq_dec _ _) as [Ha |]; [| discriminate].
  destruct (fieldValue_eq_dec _ _) as [Hb |]; [| discriminate].
  intros _ _. rewrite <- Ha, <- Hb, less_irrefl. lia.
Qed.

(** The sorted array is in order for the comparison function. *)
Lemma sortStage_sorted (cfg : SortConfig) (l : list Keyword.t) :
  Sorted (mayPrecede (Sorting.compareFn cfg)) (sortStage (Some cfg) l).
Proof. simpl. apply sort_sorted. apply compareFn_asym. Qed.

Lemma sortStage_permutation (cfg : option SortConfig) (l : list Keyword.t) :
  Permutation (sortStage cfg l) l.
Proof.
  destruct cfg; simpl; [apply sort_permutation | apply Permutation_refl].
Qed.

(** ** Filtering *)

(** The filter stage of the effect is the dataset filtered by the
    conjunction of the callbacks of its blocks: membership, multiplicity
    and order follow, the sort that comes after only permutes the result,
    and without a sort specification the effect stores exactly this
    list. *)
Lemma filter_by_the_conjunction (st : PageState) :
  filterStage st = filter (satisfiesAll st) st.(keywords)
  /\ (forall keyword,
        In keyword (filterStage st)
        <-> In keyword st.(keywords) /\ satisfiesAll st keyword = true)
  /\ (forall keyword,
        count_occ Keyword.eq_dec (filterStage st) keyword
        = if satisfiesAll st keyword
          then count_occ Keyword.eq_dec st.(keywords) keyword
          else 0)
  /\ Permutation (filterAndSort st) (filter (satisfiesAll st) st.(keywords))
  /\ (st.(sortConfig) = None ->
      filterAndSort st = filter (satisfiesAll st) st.(keywords)).
Proof.
  split; [apply filterStage_filter |]. split; [| split; [| split]].
  - intros keyword. rewrite filterStage_filter. apply filter_In.
  - intros keyword. rewrite filterStage_filter. apply count_occ_filter.
  - unfold filterAndSort. rewrite <- filterStage_filter.
    apply sortStage_permutation.
  - intros Hnone. unfold filterAndSort. rewrite Hnone. apply filterStage_filter.
Qed.

(** C3, as stated, fails: the search term is lower-cased but not trimmed.
    With the term "a " the effect drops the record named "a", which the
    trimmed term would keep. *)
Lemma text_filter_does_not_trim :
  applySearchTerm "a " [recordA] = []
  /\ trimmedTextFilter "a " [recordA] = [recordA]
  /\ applySearchTerm "a " [recordA] <> trimmedTextFilter "a " [recordA].
Proof. repeat split; vm_compute; discriminate. Qed.

(** C3, amended.  For a non-empty search term the text filter keeps, in
    order, exactly the records whose lower-cased display text contains the
    lower-cased search term, taken as typed (not trimmed), as a substring;
    with the empty term it keeps every record. *)
Theorem text_filter_substring
    (searchTerm : string) (dataset : list Keyword.t) (Hterm : searchTerm <> "") :
  applySearchTerm searchTerm dataset
  = filter (fun keyword =>
              JS.includes (JS.toLowerCase (Keyword.name keyword))
                          (JS.toLowerCase searchTerm)) dataset
  /\ (forall keyword,
        In keyword (applySearchTerm searchTerm dataset)
        <-> In keyword dataset
            /\ exists pre post,
                 JS.toLowerCase (Keyword.name keyword)
                 = pre ++ JS.toLowerCase searchTerm ++ post)
  /\ applySearchTerm "" dataset = dataset.
Proof.
  assert (E : applySearchTerm searchTerm dataset
              = filter (fun keyword =>
                          JS.includes (JS.toLowerCase (Keyword.name keyword))
                                      (JS.toLowerCase searchTerm)) dataset).
  { unfold applySearchTerm. destruct searchTerm; [now elim Hterm | reflexivity]. }
  split; [exact E |]. split; [| reflexivity].
  intros keyword. rewrite E, filter_In, includes_iff. reflexivity.
Qed.

Lemma text_filter_substring_witness :
  "SHOES" <> ""
  /\ applySearchTerm "SHOES" [recordA; recordShoes] = [recordShoes].
Proof.
  split; [discriminate |].
  rewrite (proj1 (text_filter_substring "SHOES" [recordA; recordShoes]
                    ltac:(discriminate))).
  reflexivity.
Defined.

(** ** The custom volume range *)

(** The effect itself guards a bound only by the truthiness of its
    string: were the minimum the text "abc", no record would be kept. *)
Example unparsable_minimum_keeps_no_record :
  JS.parseInt "abc" = None
  /\ filterStage (customRange "abc" "" [recordA; recordShoes]) = []
  /\ filterStage (customRange "" "" [recordA; recordShoes]) = [recordA; recordShoes].
Proof. repeat split; vm_compute; reflexivity. Qed.

Lemma satisfiesAll_without_volume (st : PageState) (keyword : Keyword.t) :
  satisfiesAll st keyword
  = satisfiesAll (setSearchVolumeFilter "" st) keyword && volumePredicate st keyword.
Proof.
  unfold satisfiesAll, textPredicate, brandPredicate, searchTypePredicate,
    competitionPredicate.
  simpl.
  replace (volumePredicate (setSearchVolumeFilter "" st) keyword) with true
    by reflexivity.
  rewrite andb_true_r.
  repeat match goal with
         | |- context [implb ?a ?b] =>
             let x := fresh "x" in set (x := implb a b) in *; clearbody x
         end.
  destruct (volumePredicate st keyword); repeat match goal with x : bool |- _ => destruct x end;
    reflexivity.
Qed.

(** In custom-range mode an empty minimum or maximum is a bound that is
    not set: that side of the range is not applied.  A non-empty bound is
    read with [parseInt]; when the text has no leading number the bound
    is [NaN], every comparison with it is false and the filter keeps no
    record. *)
Lemma custom_range_bounds (st : PageState)
    (Hcustom : st.(searchVolumeFilter) = "custom") :
  (st.(minSearchVolume) = "" ->
   filterStage st
   = filter (fun keyword =>
               implb (JS.truthy st.(maxSearchVolume))
                 (JS.le (Keyword.searchVolume keyword) (JS.parseInt st.(maxSearchVolume))))
       (filterStage (setSearchVolumeFilter "" st)))
  /\ (st.(maxSearchVolume) = "" ->
      filterStage st
      = filter (fun keyword =>
                  implb (JS.truthy st.(minSearchVolume))
                    (JS.ge (Keyword.searchVolume keyword) (JS.parseInt st.(minSearchVolume))))
          (filterStage (setSearchVolumeFilter "" st)))
  /\ (st.(minSearchVolume) <> "" -> JS.parseInt st.(minSearchVolume) = None ->
      filterStage st = [] /\ filterAndSort st = [])
  /\ (st.(maxSearchVolume) <> "" -> JS.parseInt st.(maxSearchVolume) = None ->
      filterStage st = [] /\ filterAndSort st = []).
Proof.
  assert (Hsplit : filterStage st
                   = filter (volumePredicate st) (filterStage (setSearchVolumeFilter "" st))).
  { rewrite !filterStage_filter, filter_twice. apply filter_ext.
    intros keyword. apply satisfiesAll_without_volume. }
  assert (Hempty : filterStage st = [] -> filterAndSort st = []).
  { intros E. unfold filterAndSort. rewrite E. now destruct (sortConfig st). }
  assert (Hnone : (forall keyword, volumePredicate st keyword = false) ->
                  filterStage st = [] /\ filterAndSort st = []).
  { intros Hfalse.
    assert (E : filterStage st = []).
    { rewrite Hsplit. apply filter_none. intros keyword _. apply Hfalse. }
    split; [exact E | now apply Hempty]. }
  split; [| split; [| split]].
  - intros Hmin. rewrite Hsplit. apply filter_ext. intros keyword.
    unfold volumePredicate. now rewrite Hcustom, Hmin.
  - intros Hmax. rewrite Hsplit. apply filter_ext. intros keyword.
    unfold volumePredicate. rewrite Hcustom, Hmax. simpl. now rewrite andb_true_r.
  - intros Hset Hnan. apply Hnone. intros keyword.
    unfold volumePredicate. rewrite Hcustom, Hnan. simpl.
    destruct (minSearchVolume st); [now elim Hset | reflexivity].
  - intros Hset Hnan. apply Hnone. intros keyword.
    unfold volumePredicate. rewrite Hcustom, Hnan. simpl.
    destruct (maxSearchVolume st); [now elim Hset |]. simpl. apply andb_false_r.
Qed.

(** ** Sorting *)

Example sort_by_competitionLevel :
  sortStage (Some (mkSortConfig "competitionLevel" asc)) [recordShoes; recordA; recordBag]
  = [recordA; recordBag; recordShoes]
  /\ sortStage (Some (mkSortConfig "competitionLevel" desc)) [recordA; recordShoes; recordBag]
     = [recordShoes; recordA; recordBag].
Proof. split; reflexivity. Qed.

(** C7.  For every sequence of records and every sort specification (key
    and direction), the sorted sequence is a permutation of the input,
    sorting it again with the same specification returns it unchanged,
    and the records that have the same key value as any given record
    appear in the same relative order as in the input. *)
Theorem sort_permutes_is_idempotent_and_stable
    (K : SortConfig) (records : list Keyword.t) :
  Permutation (sortStage (Some K) records) records
  /\ sortStage (Some K) (sortStage (Some K) records) = sortStage (Some K) records
  /\ (forall r : Keyword.t,
        filter (sameKey (key K) r) (sortStage (Some K) records)
        = filter (sameKey (key K) r) records).
Proof.
  split; [apply sortStage_permutation |]. split.
  - simpl. apply sort_idempotent. apply compareFn_asym.
  - intros r. simpl. apply sort_stable. apply compareFn_sameKey.
Qed.

(** ** The page as a transition system *)

Section EngineFacts.

Variable Rng : Type.
Variable generateMockKeywords : string -> Rng -> list Keyword.t * Rng.

Local Abbreviation step' := (step generateMockKeywords).
Local Abbreviation run' := (run generateMockKeywords).

Lemma run_snoc (w : World Rng) (events : list Event) (e : Event) :
  run' w (events ++ [e]) = step' (run' w events) e.
Proof. unfold run. now rewrite fold_left_app. Qed.

Lemma run_app (w : World Rng) (events events' : list Event) :
  run' w (events ++ events') = run' (run' w events) events'.
Proof. unfold run. now rewrite fold_left_app. Qed.

(** A property of the initial world that every event preserves holds in
    every reachable world. *)
Lemma reachable_ind (P : World Rng -> Prop) :
  (forall r, P (initialWorld r)) ->
  (forall w e, P w -> P (step' w e)) ->
  forall r events, P (run' (initialWorld r) events).
Proof.
  intros Hinit Hstep r events.
  induction events as [| e events IH] using rev_ind; [apply Hinit |].
  rewrite run_snoc. now apply Hstep.
Qed.

(** *** The handlers and the listener *)

Lemma setScrollListener_same (w : World Rng) :
  setScrollListener (scrollListener w) w = w.
Proof. now destruct w. Qed.

Lemma sameDependencies_eq (a b : ScrollClosure) :
  sameDependencies a b = true <-> a = b.
Proof.
  destruct a as [l v n], b as [l' v' n']. unfold sameDependencies. simpl.
  rewrite !andb_true_iff, Bool.eqb_true_iff, !Nat.eqb_eq. split.
  - now intros [[-> ->] ->].
  - intros E. now inversion E.
Qed.

Lemma sameDependencies_refl (a : ScrollClosure) : sameDependencies a a = true.
Proof. now apply sameDependencies_eq. Qed.

Lemma infiniteScrollEffect_same (st : PageState) (listener : option ScrollClosure) :
  infiniteScrollEffect st st listener = listener.
Proof. unfold infiniteScrollEffect. now rewrite sameDependencies_refl. Qed.

(** After the effect the listener is the one that was there, with the
    dependencies unchanged, or there is none, or it is the
    [handleScroll] of the render. *)
Lemma infiniteScrollEffect_cases
    (previous current : PageState) (listener : option ScrollClosure) :
  (closureOf previous = closureOf current
   /\ infiniteScrollEffect previous current listener = listener)
  \/ infiniteScrollEffect previous current listener = None
  \/ (isLoading current = false
      /\ infiniteScrollEffect previous current listener = Some (closureOf current)).
Proof.
  unfold infiniteScrollEffect.
  destruct (sameDependencies (closureOf previous) (closureOf current)) eqn:E.
  - left. now apply sameDependencies_eq in E.
  - right. destruct (isLoading current); [now left | now right].
Qed.

(** A scroll event is ignored, or the listener's guard held and a timer
    was set with the length that the listener captured. *)
Lemma handleScroll_cases (t c h : Z) (w : World Rng) :
  handleScroll t c h w = w
  \/ exists closure,
       scrollListener w = Some closure
       /\ isLoading (page w) = false
       /\ capturedIsLoadingMore closure = false
       /\ capturedVisibleKeywords closure < capturedLength closure
       /\ (h - 200 <= t + c)%Z
       /\ handleScroll t c h w
          = mkWorld (setIsLoadingMore true (page w)) (loadTimers w)
                    (loadMoreTimers w ++ [capturedLength closure])%list
                    (random w) (scrollListener w).
Proof.
  unfold handleScroll.
  destruct (scrollListener w) as [closure |] eqn:Hl; [| now left].
  destruct (isLoading (page w)) eqn:Hload; [now left |].
  destruct ((h - 200 <=? t + c)%Z
            && negb (capturedIsLoadingMore closure)
            && (capturedVisibleKeywords closure <? capturedLength closure)%nat)
    eqn:Hguard; [| now left].
  right. exists closure.
  apply andb_prop in Hguard. destruct Hguard as [Hguard Hlt].
  apply andb_prop in Hguard. destruct Hguard as [Hnear Hidle].
  apply Nat.ltb_lt in Hlt. apply Z.leb_le in Hnear.
  apply negb_true_iff in Hidle. repeat split; assumption.
Qed.

Lemma visibleKeywords_update (w : World Rng) (e : Event) :
  visibleKeywords (page (update generateMockKeywords w e))
  = visibleKeywords (page (handle generateMockKeywords e w)).
Proof. unfold update. now destruct (touchesView e). Qed.

(** The listener after an event is the one before it or the
    [handleScroll] of a render that the event caused. *)
Lemma listenerAfter_captured (w : World Rng) (e : Event) (closure : ScrollClosure) :
  listenerAfter generateMockKeywords w e = Some closure ->
  scrollListener w = Some closure
  \/ capturedVisibleKeywords closure
     = visibleKeywords (page (update generateMockKeywords w e)).
Proof.
  rewrite visibleKeywords_update. unfold listenerAfter.
  set (handled := page (handle generateMockKeywords e w)).
  set (first := infiniteScrollEffect (page w) handled (scrollListener w)).
  assert (Hfirst : forall cl, first = Some cl ->
            scrollListener w = Some cl
            \/ capturedVisibleKeywords cl = visibleKeywords handled).
  { intros cl. unfold first.
    destruct (infiniteScrollEffect_cases (page w) handled (scrollListener w))
      as [[_ E] | [E | [_ E]]]; rewrite E.
    - now left.
    - discriminate.
    - intros H. inversion H. now right. }
  destruct (touchesView e); [| apply Hfirst].
  destruct (infiniteScrollEffect_cases handled (filterAndSortEffect handled) first)
    as [[_ E] | [E | [_ E]]]; rewrite E.
  - apply Hfirst.
  - discriminate.
  - intros H. inversion H. now right.
Qed.

(** *** The pagination window *)

(** Only the callback of a scroll timer writes [visibleKeywords]. *)
Lemma visibleKeywords_step (w : World Rng) (e : Event) :
  e <> LoadMoreTimeout ->
  visibleKeywords (page (step' w e)) = visibleKeywords (page w).
Proof.
  intros Hne. destruct e; try reflexivity; unfold step, update; simpl.
  - unfold selectCategory. now destruct (JS.truthy categoryId).
  - destruct (handleScroll_cases scrollTop clientHeight scrollHeight w)
      as [E | [closure [_ [_ [_ [_ [_ E]]]]]]]; now rewrite E.
  - unfold loadTimeout. destruct (loadTimers w); [reflexivity |].
    now destruct (generateMockKeywords s (random w)).
  - now elim Hne.
Qed.

Lemma windowInvariant_update (w : World Rng) (e : Event) :
  windowInvariant w ->
  30 <= visibleKeywords (page (update generateMockKeywords w e))
  /\ Forall (fun captured => 30 < captured)
       (loadMoreTimers (update generateMockKeywords w e)).
Proof.
  intros [Hvis [Htimers Hlistener]].
  destruct e; try (split; [exact Hvis | exact Htimers]); unfold update; simpl.
  - unfold selectCategory. destruct (JS.truthy categoryId); now split.
  - destruct (handleScroll_cases scrollTop clientHeight scrollHeight w)
      as [E | [closure [Hl [_ [_ [Hlt [_ E]]]]]]]; rewrite E; [now split |].
    simpl. split; [exact Hvis |].
    apply Forall_app. split; [exact Htimers |]. constructor; [| constructor].
    specialize (Hlistener closure Hl). lia.
  - unfold loadTimeout. destruct (loadTimers w); [now split |].
    destruct (generateMockKeywords s (random w)). simpl. now split.
  - unfold loadMoreTimeout.
    destruct (loadMoreTimers w) as [| c rest] eqn:Hq.
    + split; [exact Hvis | now rewrite Hq].
    + simpl. inversion Htimers; subst. split; [lia | assumption].
Qed.

Lemma windowInvariant_step (w : World Rng) (e : Event) :
  windowInvariant w -> windowInvariant (step' w e).
Proof.
  intros H. destruct (windowInvariant_update w e H) as [Hvis Htimers].
  split; [exact Hvis |]. split; [exact Htimers |].
  intros closure Hclosure.
  destruct (listenerAfter_captured w e closure Hclosure) as [Hold | Hnew].
  - destruct H as [_ [_ Hlistener]]. now apply Hlistener.
  - rewrite Hnew. exact Hvis.
Qed.

(** In every reachable world the listener is the [handleScroll] of the
    current render. *)
Lemma listenerInvariant_step (w : World Rng) (e : Event) :
  listenerInvariant w -> listenerInvariant (step' w e).
Proof.
  intros H closure. unfold step. simpl. unfold listenerAfter, update.
  set (handled := page (handle generateMockKeywords e w)).
  assert (Hfirst : forall cl,
            infiniteScrollEffect (page w) handled (scrollListener w) = Some cl ->
            cl = closureOf handled).
  { intros cl.
    destruct (infiniteScrollEffect_cases (page w) handled (scrollListener w))
      as [[Hsame E] | [E | [_ E]]]; rewrite E.
    - intros Hl. rewrite <- Hsame. now apply H.
    - discriminate.
    - intros Hl. now inversion Hl. }
  destruct (touchesView e); simpl; [| apply Hfirst].
  destruct (infiniteScrollEffect_cases handled (filterAndSortEffect handled)
              (infiniteScrollEffect (page w) handled (scrollListener w)))
    as [[Hsame E] | [E | [_ E]]]; rewrite E.
  - intros Hl. fold handled. rewrite <- Hsame. now apply Hfirst.
  - discriminate.
  - intros Hl. now inversion Hl.
Qed.

Lemma listenerInvariant_reachable (r : Rng) (events : list Event) :
  listenerInvariant (run' (initialWorld r) events).
Proof.
  apply reachable_ind.
  - intros r' closure. discriminate.
  - intros w e. apply listenerInvariant_step.
Qed.

Lemma windowInvariant_reachable (r : Rng) (events : list Event) :
  windowInvariant (run' (initialWorld r) events).
Proof.
  apply reachable_ind.
  - intros r'. split; [apply Nat.le_refl |]. split; [constructor | discriminate].
  - intros w e. apply windowInvariant_step.
Qed.

Lemma visibleSlice_length (st : PageState) :
  List.length (visibleSlice st)
  = Nat.min st.(visibleKeywords) (List.length st.(filteredKeywords)).
Proof. unfold visibleSlice. apply length_firstn. Qed.

(** C2, amended.  A change to the filter criteria or to the sort
    specification recomputes the filtered and sorted view and leaves the
    visible count as it was: nothing resets it to the initial page
    size. *)
Theorem criteria_or_sort_change_keeps_window
    (w : World Rng) (e : Event) (He : changesCriteriaOrSort e = true) :
  visibleKeywords (page (step' w e)) = visibleKeywords (page w)
  /\ filteredKeywords (page (step' w e)) = filterAndSort (page (step' w e)).
Proof.
  split.
  - apply visibleKeywords_step. intros ->. discriminate.
  - destruct e; try discriminate; reflexivity.
Qed.

(** C5, amended.  In every reachable state the visible count is at least
    the initial page size of 30 (so it is not negative), and the number
    of visible records, which is the smaller of the visible count and the
    length of the view, is at most the length of the view.  The visible
    count itself is not bounded by the length of the view. *)
Theorem window_bounds_reachable (r : Rng) (events : list Event) :
  let st := page (run' (initialWorld r) events) in
  30 <= st.(visibleKeywords)
  /\ List.length (visibleSlice st)
     = Nat.min st.(visibleKeywords) (List.length st.(filteredKeywords))
  /\ List.length (visibleSlice st) <= List.length st.(filteredKeywords).
Proof.
  intros st. split; [apply (windowInvariant_reachable r events) |].
  rewrite visibleSlice_length. split; [reflexivity | apply Nat.le_min_r].
Qed.

(** C6, amended.  The visible slice has [min visible-count
    total-available] records.  When no growth is pending, the table is
    shown and the scroll listener on it is the one of the current render,
    [loadMore] sets the visible count to
    [min (visible-count + 20) total-available], a strict increase, if the
    visible count is below the length of the view.  If the visible count
    equals or exceeds the length of the view it changes nothing, and
    neither does it while a load of the dataset shows the spinner or
    when no listener is on the table. *)
Theorem loadMore_grows_or_does_nothing (w : World Rng)
    (Hidle : isLoadingMore (page w) = false)
    (Hnone : loadMoreTimers w = [])
    (Hcurrent : listenerInvariant w) :
  let visible := visibleKeywords (page w) in
  let total := List.length (filteredKeywords (page w)) in
  List.length (visibleSlice (page w)) = Nat.min visible total
  /\ (scrollListener w <> None -> isLoading (page w) = false -> visible < total ->
      visibleKeywords (page (loadMore generateMockKeywords w))
      = Nat.min (visible + 20) total
      /\ visible < visibleKeywords (page (loadMore generateMockKeywords w))
      /\ filteredKeywords (page (loadMore generateMockKeywords w))
         = filteredKeywords (page w))
  /\ (total <= visible -> loadMore generateMockKeywords w = w)
  /\ (isLoading (page w) = true \/ scrollListener w = None ->
      loadMore generateMockKeywords w = w).
Proof.
  intros visible total. split; [apply visibleSlice_length |].
  assert (Hignored : handleScroll 0 0 0 w = w ->
                     loadMore generateMockKeywords w = w).
  { intros E.
    assert (Hstep : step' w (Scroll 0 0 0) = w).
    { unfold step, listenerAfter, update. simpl. rewrite E.
      rewrite infiniteScrollEffect_same. apply setScrollListener_same. }
    unfold loadMore. rewrite Hstep.
    unfold step, listenerAfter, update. simpl. unfold loadMoreTimeout.
    rewrite Hnone. rewrite infiniteScrollEffect_same.
    apply setScrollListener_same. }
  subst visible total. split; [| split].
  - intros Hlistener Hshown Hlt.
    destruct (scrollListener w) as [closure |] eqn:Hl; [| now elim Hlistener].
    assert (Hclosure : closure = closureOf (page w)) by now apply Hcurrent.
    assert (Hpage : page (loadMore generateMockKeywords w)
                    = setIsLoadingMore false
                        (setVisibleKeywords
                           (Nat.min (visibleKeywords (page w) + 20)
                                    (List.length (filteredKeywords (page w))))
                           (setIsLoadingMore true (page w)))).
    { unfold loadMore, step, update. simpl. unfold handleScroll.
      rewrite Hl, Hshown. subst closure. simpl. rewrite Hidle.
      apply Nat.ltb_lt in Hlt. rewrite Hlt. simpl.
      unfold loadMoreTimeout. simpl. rewrite Hnone. reflexivity. }
    rewrite Hpage. simpl. repeat split. lia.
  - intros Hge. apply Hignored. unfold handleScroll.
    destruct (scrollListener w) as [closure |] eqn:Hl; [| reflexivity].
    assert (Hclosure : closure = closureOf (page w)) by now apply Hcurrent.
    subst closure. simpl. apply Nat.ltb_ge in Hge. rewrite Hge.
    rewrite andb_false_r. now destruct (isLoading (page w)).
  - intros [Hloading | Hl]; apply Hignored; unfold handleScroll.
    + rewrite Hloading. now destruct (scrollListener w).
    + now rewrite Hl.
Qed.

End EngineFacts.

Ltac scroll_cases t c h w :=
  let E := fresh "E" in
  destruct (handleScroll_cases _ t c h w) as [E | [? [? [? [? [? [? E]]]]]]];
  rewrite E.

(** ** The inclusion sets *)

Lemma arrayIncludes_In (a : list string) (v : string) :
  JS.arrayIncludes a v = true <-> In v a.
Proof.
  unfold JS.arrayIncludes. rewrite existsb_exists. split.
  - intros [x [Hx E]]. apply String.eqb_eq in E. now subst.
  - intros H. exists v. split; [exact H | apply String.eqb_refl].
Qed.

Lemma arrayIncludes_not_In (a : list string) (v : string) :
  JS.arrayIncludes a v = false <-> ~ In v a.
Proof.
  rewrite <- arrayIncludes_In. now destruct (JS.arrayIncludes a v).
Qed.

Lemma In_without (v x : string) (s : list string) :
  In x (filter (fun item => negb (item =? v)) s) <-> In x s /\ x <> v.
Proof.
  rewrite filter_In, negb_true_iff, String.eqb_neq. reflexivity.
Qed.

(** Selecting a specific value that is not in the set. *)
Lemma toggle_select (s : list string) (v : string) :
  v <> "all" -> ~ In v s ->
  toggleInclusion s v = (filter (fun item => negb (item =? "all")) s ++ [v])%list.
Proof.
  intros Hv Hnot. unfold toggleInclusion.
  apply String.eqb_neq in Hv. rewrite Hv.
  apply arrayIncludes_not_In in Hnot. rewrite Hnot.
  destruct (filter _ s ++ [v])%list eqn:E; [| reflexivity].
  now apply app_eq_nil in E.
Qed.

(** Deselecting a specific value that is in the set. *)
Lemma toggle_deselect (s : list string) (v : string) :
  v <> "all" -> In v s ->
  toggleInclusion s v
  = match filter (fun item => negb (item =? v)) s with
    | [] => ["all"]
    | x :: rest => x :: rest
    end.
Proof.
  intros Hv Hin. unfold toggleInclusion.
  apply String.eqb_neq in Hv. rewrite Hv.
  apply arrayIncludes_In in Hin. rewrite Hin.
  now destruct (filter (fun item => negb (item =? v)) s).
Qed.

Lemma toggle_keeps_allSentinel (s : list string) (v : string) :
  allSentinel s -> allSentinel (toggleInclusion s v).
Proof.
  intros Hs. destruct (string_dec v "all") as [-> | Hv]; [now left |].
  destruct (in_dec string_dec v s) as [Hin | Hnot].
  - rewrite toggle_deselect by assumption.
    destruct (filter _ s) as [| x rest] eqn:E; [now left |].
    right. split; [discriminate |]. rewrite <- E. intros Hall.
    apply In_without in Hall. destruct Hall as [Hall _].
    destruct Hs as [-> | [_ Hno]]; [| now apply Hno].
    destruct Hin as [Hin | []]. now apply Hv.
  - rewrite toggle_select by assumption. right. split.
    + intros E. now apply app_eq_nil in E.
    + intros Hall. apply in_app_or in Hall. destruct Hall as [Hall | [Hall | []]].
      * apply In_without in Hall. now destruct Hall.
      * now apply Hv.
Qed.

Section SentinelFacts.

Variable Rng : Type.
Variable generateMockKeywords : string -> Rng -> list Keyword.t * Rng.

Lemma sentinelInvariant_step (w : World Rng) (e : Event) :
  sentinelInvariant w -> sentinelInvariant (step generateMockKeywords w e).
Proof.
  intros [Hb [Ht Hc]]. unfold sentinelInvariant.
  destruct e; unfold step, update; simpl; try (repeat split; assumption).
  - repeat split; try assumption. now apply toggle_keeps_allSentinel.
  - repeat split; try assumption. now apply toggle_keeps_allSentinel.
  - repeat split; try assumption. now apply toggle_keeps_allSentinel.
  - repeat split; now left.
  - unfold selectCategory. destruct (JS.truthy categoryId); repeat split; assumption.
  - scroll_cases scrollTop clientHeight scrollHeight w; repeat split; assumption.
  - unfold loadTimeout. destruct (loadTimers w); [repeat split; assumption |].
    destruct (generateMockKeywords s (random w)). simpl. repeat split; assumption.
  - unfold loadMoreTimeout. destruct (loadMoreTimers w); repeat split; assumption.
Qed.

(** C8.  Toggling "all" makes an inclusion set exactly {"all"}.  From a
    set that is the sentinel alone or a non-empty set of specific values,
    selecting a specific value removes "all" and adds the value, keeping
    the other specific values; deselecting the only specific value
    reverts the set to {"all"}; deselecting one of several removes just
    that value.  The three handlers apply this toggle to their own set,
    and in every reachable state each of the three sets is either
    {"all"} or a non-empty set without "all". *)
Theorem inclusion_sets_keep_the_sentinel_invariant :
  (forall s, toggleInclusion s "all" = ["all"])
  /\ (forall s v, allSentinel s -> v <> "all" -> ~ In v s ->
        ~ In "all" (toggleInclusion s v)
        /\ In v (toggleInclusion s v)
        /\ (forall x, In x s -> x <> "all" -> In x (toggleInclusion s v)))
  /\ (forall s v, allSentinel s -> v <> "all" -> In v s ->
        (forall x, In x s -> x = v) -> toggleInclusion s v = ["all"])
  /\ (forall s v, allSentinel s -> v <> "all" -> In v s ->
        (exists x, In x s /\ x <> v) ->
        ~ In "all" (toggleInclusion s v)
        /\ forall x, In x (toggleInclusion s v) <-> In x s /\ x <> v)
  /\ (forall s v, allSentinel s -> allSentinel (toggleInclusion s v))
  /\ (forall st v,
        brandFilter (handleBrandFilterChange v st)
        = toggleInclusion (brandFilter st) v
        /\ searchTypeFilter (handleSearchTypeFilterChange v st)
           = toggleInclusion (searchTypeFilter st) v
        /\ competitionFilter (handleCompetitionFilterChange v st)
           = toggleInclusion (competitionFilter st) v)
  /\ (forall r events,
        let st := page (run generateMockKeywords (initialWorld r) events) in
        allSentinel (brandFilter st)
        /\ allSentinel (searchTypeFilter st)
        /\ allSentinel (competitionFilter st)).
Proof.
  split; [reflexivity |]. split.
  { intros s v Hs Hv Hnot. rewrite toggle_select by assumption.
    split; [| split].
    - intros Hall. apply in_app_or in Hall. destruct Hall as [Hall | [Hall | []]].
      + apply In_without in Hall. now destruct Hall.
      + now apply Hv.
    - apply in_or_app. right. now left.
    - intros x Hx Hne. apply in_or_app. left. now apply In_without. }
  split.
  { intros s v Hs Hv Hin Honly. rewrite toggle_deselect by assumption.
    destruct (filter _ s) as [| x rest] eqn:E; [reflexivity |].
    assert (Hx : In x (filter (fun item => negb (item =? v)) s))
      by (rewrite E; now left).
    apply In_without in Hx. destruct Hx as [Hx Hne]. now elim Hne; apply Honly. }
  split.
  { intros s v Hs Hv Hin [y [Hy Hne]]. rewrite toggle_deselect by assumption.
    assert (Hy' : In y (filter (fun item => negb (item =? v)) s))
      by now apply In_without.
    destruct (filter _ s) as [| x rest] eqn:E; [destruct Hy' |].
    rewrite <- E. split.
    - intros Hall. apply In_without in Hall. destruct Hall as [Hall _].
      destruct Hs as [-> | [_ Hno]]; [| now apply Hno].
      destruct Hin as [Hin | []]. now apply Hv.
    - intros x0. apply In_without. }
  split; [intros s v; apply toggle_keeps_allSentinel |].
  split; [intros st v; repeat split |].
  intros r events.
  apply (reachable_ind Rng generateMockKeywords (@sentinelInvariant Rng)).
  - intros r'. repeat split; now left.
  - intros w e. apply sentinelInvariant_step.
Qed.

End SentinelFacts.

(** ** Overlapping dataset loads *)

Section LoadFacts.

Variable Rng : Type.
Variable generateMockKeywords : string -> Rng -> list Keyword.t * Rng.

Lemma newestLoad_select (categoryId : string) (w : World Rng) :
  categoryId <> "" ->
  newestLoad generateMockKeywords categoryId (step generateMockKeywords w (SelectCategory categoryId)).
Proof.
  intros Hid. left. exists (loadTimers w). unfold step, update. simpl.
  unfold selectCategory. destruct categoryId; [now elim Hid | reflexivity].
Qed.

Lemma newestLoad_step (categoryId : string) (w : World Rng) (e : Event) :
  (forall c, e <> SelectCategory c) ->
  newestLoad generateMockKeywords categoryId w ->
  newestLoad generateMockKeywords categoryId (step generateMockKeywords w e).
Proof.
  intros Hnot H.
  destruct e; try exact H; unfold step, update; simpl.
  - now elim (Hnot categoryId0).
  - scroll_cases scrollTop clientHeight scrollHeight w; exact H.
  - unfold loadTimeout, newestLoad in *.
    destruct H as [[older Hq] | [Hq Hk]].
    + rewrite Hq. destruct older as [| stale older]; simpl.
      * destruct (generateMockKeywords categoryId (random w)) as [batch r'] eqn:E.
        simpl. right. split; [reflexivity |]. exists (random w). now rewrite E.
      * destruct (generateMockKeywords stale (random w)). simpl.
        left. now exists older.
    + rewrite Hq. simpl. right. now split.
  - unfold loadMoreTimeout. now destruct (loadMoreTimers w).
Qed.

Lemma newestLoad_run (categoryId : string) (events : list Event) (w : World Rng) :
  (forall c, ~ In (SelectCategory c) events) ->
  newestLoad generateMockKeywords categoryId w ->
  newestLoad generateMockKeywords categoryId (run generateMockKeywords w events).
Proof.
  revert w. induction events as [| e events IH]; intros w Hnot H; [exact H |].
  simpl. apply IH.
  - intros c Hc. apply (Hnot c). now right.
  - apply newestLoad_step; [| exact H].
    intros c ->. apply (Hnot c). now left.
Qed.

(** The callback of a load timer stores the batch of its category
    whatever else is pending. *)
Lemma loadTimeout_stores_the_batch (w : World Rng) (stale : string) (newer : list string) :
  loadTimers w = stale :: newer ->
  let w' := step generateMockKeywords w LoadTimeout in
  keywords (page w') = fst (generateMockKeywords stale (random w))
  /\ random w' = snd (generateMockKeywords stale (random w))
  /\ loadTimers w' = newer
  /\ isLoading (page w') = false
  /\ filteredKeywords (page w') = filterAndSort (page w').
Proof.
  intros Hq. unfold step, update. simpl. unfold loadTimeout. rewrite Hq.
  destruct (generateMockKeywords stale (random w)) as [batch r']. simpl.
  repeat split.
Qed.

(** C9, amended.  A superseded load is not discarded: whenever the timer
    of a load fires, the batch generated for its category becomes the
    dataset and the spinner is taken away, also while newer loads are
    pending, and these stay pending.  All loads have the same delay, so
    their timers fire in the order in which the loads started and an
    older load cannot overwrite the batch of a newer one: when the load
    of a category is the last one started and no load is pending any
    more, the dataset is the batch generated for that category, whatever
    happened before and in between. *)
Theorem last_started_load_wins :
  (forall (w : World Rng) (stale : string) (newer : list string),
     loadTimers w = stale :: newer ->
     let w' := step generateMockKeywords w LoadTimeout in
     keywords (page w') = fst (generateMockKeywords stale (random w))
     /\ isLoading (page w') = false
     /\ loadTimers w' = newer)
  /\ (forall (w : World Rng) (before after : list Event) (categoryId : string),
        categoryId <> "" ->
        (forall c, ~ In (SelectCategory c) after) ->
        loadTimers (run generateMockKeywords w
                      (before ++ SelectCategory categoryId :: after)) = [] ->
        exists r,
          keywords (page (run generateMockKeywords w
                            (before ++ SelectCategory categoryId :: after)))
          = fst (generateMockKeywords categoryId r)).
Proof.
  split.
  - intros w stale newer Hq.
    destruct (loadTimeout_stores_the_batch w stale newer Hq)
      as [Hk [_ [Ht [Hl _]]]].
    repeat split; assumption.
  - intros w before after categoryId Hid Hlast Hdone.
    assert (H : newestLoad generateMockKeywords categoryId
                  (run generateMockKeywords w
                     (before ++ SelectCategory categoryId :: after))).
    { rewrite run_app. simpl. apply newestLoad_run; [exact Hlast |].
      now apply newestLoad_select. }
    destruct H as [[older Hq] | [_ Hk]]; [| exact Hk].
    rewrite Hq in Hdone. now apply app_eq_nil in Hdone.
Qed.

End LoadFacts.

(** ** The placeholder filters *)

Lemma filterAndSort_clearPlaceholders (st : PageState) :
  filterAndSort (clearPlaceholders st) = filterAndSort st.
Proof.
  unfold filterAndSort, filterStage. simpl. now rewrite !applyMockFilters_id.
Qed.

(** The view depends on the part of the state that [clearPlaceholders]
    keeps. *)
Lemma filterAndSort_same (st st' : PageState) :
  clearPlaceholders st = clearPlaceholders st' ->
  filterAndSort st = filterAndSort st'.
Proof.
  intros H. rewrite <- (filterAndSort_clearPlaceholders st), H.
  apply filterAndSort_clearPlaceholders.
Qed.

Ltac same_pages H :=
  match type of H with
  | clearPlaceholders ?a = clearPlaceholders ?b =>
      destruct a, b; unfold clearPlaceholders in H; simpl in H;
      injection H as; subst
  end.

Section PlaceholderFacts.

Variable Rng : Type.
Variable generateMockKeywords : string -> Rng -> list Keyword.t * Rng.

Lemma sameEngineState_refl (w : World Rng) : sameEngineState w w.
Proof. now repeat split. Qed.

Lemma sameEngineState_sym (w w' : World Rng) :
  sameEngineState w w' -> sameEngineState w' w.
Proof. intros [H1 [H2 [H3 [H4 H5]]]]. now repeat split. Qed.

Lemma sameEngineState_trans (w1 w2 w3 : World Rng) :
  sameEngineState w1 w2 -> sameEngineState w2 w3 -> sameEngineState w1 w3.
Proof.
  intros [H1 [H2 [H3 [H4 H5]]]] [K1 [K2 [K3 [K4 K5]]]].
  repeat split; etransitivity; eassumption.
Qed.

(** The effect after a handler that respects [clearPlaceholders]. *)
Lemma effect_same (st st' : PageState) :
  clearPlaceholders st = clearPlaceholders st' ->
  clearPlaceholders (filterAndSortEffect st)
  = clearPlaceholders (filterAndSortEffect st').
Proof.
  intros H. unfold filterAndSortEffect. rewrite (filterAndSort_same st st' H).
  same_pages H. reflexivity.
Qed.

(** The listener reads nothing of the placeholders. *)
Lemma closureOf_same (st st' : PageState) :
  clearPlaceholders st = clearPlaceholders st' ->
  closureOf st = closureOf st' /\ isLoading st = isLoading st'.
Proof. intros H. same_pages H. now split. Qed.

Lemma infiniteScrollEffect_pages
    (previous previous' current current' : PageState)
    (listener : option ScrollClosure) :
  clearPlaceholders previous = clearPlaceholders previous' ->
  clearPlaceholders current = clearPlaceholders current' ->
  infiniteScrollEffect previous current listener
  = infiniteScrollEffect previous' current' listener.
Proof.
  intros Hp Hc. unfold infiniteScrollEffect.
  destruct (closureOf_same _ _ Hp) as [-> _].
  destruct (closureOf_same _ _ Hc) as [-> ->]. reflexivity.
Qed.

(** The same handler in two worlds that differ in the placeholders. *)
Lemma sameEngineState_handle (w w' : World Rng) (e : Event) :
  sameEngineState w w' ->
  sameEngineState (handle generateMockKeywords e w)
                  (handle generateMockKeywords e w').
Proof.
  intros [Hp [Hl [Hm [Hr Hs]]]].
  destruct w as [st lt mt r sl], w' as [st' lt' mt' r' sl']. simpl in *. subst.
  destruct e; simpl;
    try (repeat split; simpl; same_pages Hp; reflexivity).
  - unfold selectCategory. simpl.
    destruct (JS.truthy categoryId); repeat split; simpl; trivial.
    same_pages Hp. reflexivity.
  - unfold handleScroll. simpl.
    replace (isLoading st') with (isLoading st)
      by (same_pages Hp; reflexivity).
    destruct sl' as [closure |]; [| now repeat split].
    destruct (isLoading st); [now repeat split |].
    destruct ((scrollHeight - 200 <=? scrollTop + clientHeight)%Z
              && negb (capturedIsLoadingMore closure)
              && (capturedVisibleKeywords closure <? capturedLength closure)%nat);
      repeat split; simpl; trivial.
    same_pages Hp. reflexivity.
  - unfold loadTimeout. simpl. destruct lt'; simpl.
    + now repeat split.
    + destruct (generateMockKeywords s r'). simpl. repeat split.
      same_pages Hp. reflexivity.
  - unfold loadMoreTimeout. simpl. destruct mt'; repeat split; simpl; trivial.
    same_pages Hp. reflexivity.
Qed.

Lemma sameEngineState_update (w w' : World Rng) (e : Event) :
  sameEngineState w w' ->
  sameEngineState (update generateMockKeywords w e)
                  (update generateMockKeywords w' e).
Proof.
  intros H. apply (sameEngineState_handle w w' e) in H. unfold update.
  destruct (touchesView e); [| exact H].
  destruct H as [Hp [Hl [Hm [Hr Hs]]]].
  repeat split; simpl; trivial. now apply effect_same.
Qed.

Lemma listenerAfter_same (w w' : World Rng) (e : Event) :
  sameEngineState w w' ->
  listenerAfter generateMockKeywords w e = listenerAfter generateMockKeywords w' e.
Proof.
  intros H. pose proof (sameEngineState_handle w w' e H) as [Hh _].
  destruct H as [Hp [_ [_ [_ Hs]]]]. unfold listenerAfter. rewrite Hs.
  rewrite (infiniteScrollEffect_pages _ _ _ _ (scrollListener w') Hp Hh).
  destruct (touchesView e); [| reflexivity].
  apply infiniteScrollEffect_pages; [exact Hh | now apply effect_same].
Qed.

(** The same event in two worlds that differ in the placeholders. *)
Lemma sameEngineState_step (w w' : World Rng) (e : Event) :
  sameEngineState w w' ->
  sameEngineState (step generateMockKeywords w e) (step generateMockKeywords w' e).
Proof.
  intros H. pose proof (listenerAfter_same w w' e H) as Hs.
  destruct (sameEngineState_update w w' e H) as [Hp [Hl [Hm [Hr _]]]].
  unfold step. repeat split; assumption.
Qed.

Lemma settled_step (w : World Rng) (e : Event) :
  settled (page w) -> settled (page (step generateMockKeywords w e)).
Proof.
  unfold settled. intros H.
  destruct e; unfold step, update; simpl; try reflexivity.
  - unfold selectCategory. destruct (JS.truthy categoryId); exact H.
  - scroll_cases scrollTop clientHeight scrollHeight w; exact H.
  - unfold loadMoreTimeout. destruct (loadMoreTimers w); exact H.
Qed.

Lemma infiniteScrollEffect_unchanged
    (previous current : PageState) (listener : option ScrollClosure) :
  closureOf previous = closureOf current ->
  infiniteScrollEffect previous current listener = listener.
Proof.
  intros H. unfold infiniteScrollEffect. rewrite H.
  now rewrite (proj2 (sameDependencies_eq _ _) eq_refl).
Qed.

(** A placeholder event leaves the rest of a settled world as it is. *)
Lemma placeholder_step (w : World Rng) (e : Event) :
  placeholderOnly e = true ->
  settled (page w) ->
  sameEngineState (step generateMockKeywords w e) w.
Proof.
  unfold settled. intros He Hs.
  assert (Hhandled : clearPlaceholders (page (handle generateMockKeywords e w))
                     = clearPlaceholders (page w)
                     /\ filteredKeywords (page (handle generateMockKeywords e w))
                        = filteredKeywords (page w)).
  { destruct e; try discriminate; simpl; destruct (page w); split; reflexivity. }
  destruct Hhandled as [Hclear Hview].
  assert (Hsame : filterAndSort (page (handle generateMockKeywords e w))
                  = filteredKeywords (page (handle generateMockKeywords e w))).
  { rewrite (filterAndSort_same _ _ Hclear), Hview. now symmetry. }
  assert (Htouches : touchesView e = true) by (destruct e; try discriminate; reflexivity).
  assert (Hpage : clearPlaceholders (page (update generateMockKeywords w e))
                  = clearPlaceholders (page w)).
  { unfold update. rewrite Htouches. simpl. unfold filterAndSortEffect.
    rewrite Hsame. rewrite <- Hclear.
    destruct (page (handle generateMockKeywords e w)). reflexivity. }
  unfold step. split; [exact Hpage |].
  split; [destruct e; try discriminate; reflexivity |].
  split; [destruct e; try discriminate; reflexivity |].
  split; [destruct e; try discriminate; reflexivity |].
  simpl. unfold listenerAfter. rewrite Htouches.
  rewrite (infiniteScrollEffect_unchanged
             (page (handle generateMockKeywords e w))
             (filterAndSortEffect (page (handle generateMockKeywords e w)))).
  - apply infiniteScrollEffect_unchanged. symmetry.
    now apply closureOf_same.
  - unfold closureOf, filterAndSortEffect. simpl. now rewrite Hsame.
Qed.

Lemma placeholders_erased (events : list Event) (w w' : World Rng) :
  sameEngineState w w' -> settled (page w) -> settled (page w') ->
  sameEngineState
    (run generateMockKeywords w events)
    (run generateMockKeywords w' (filter (fun e => negb (placeholderOnly e)) events)).
Proof.
  revert w w'. induction events as [| e events IH]; intros w w' H Hs Hs'; [exact H |].
  simpl. destruct (placeholderOnly e) eqn:He; simpl.
  - apply IH; [| now apply settled_step | exact Hs'].
    eapply sameEngineState_trans; [| exact H]. now apply placeholder_step.
  - apply IH; [| now apply settled_step | now apply settled_step].
    now apply sameEngineState_step.
Qed.

(** C10.  The gender, age, best selling month and search volume increase
    variables have no effect on the output of the engine: the view
    computed by the effect is the same whatever their values, and two
    runs from the initial state whose events differ only in the events
    that write these variables end with the same dataset, the same
    filtered and sorted view and the same visible slice. *)
Theorem placeholder_filters_do_not_affect_the_view
    (r : Rng) (events events' : list Event)
    (Hsame : filter (fun e => negb (placeholderOnly e)) events
             = filter (fun e => negb (placeholderOnly e)) events') :
  let st := page (run generateMockKeywords (initialWorld r) events) in
  let st' := page (run generateMockKeywords (initialWorld r) events') in
  keywords st = keywords st'
  /\ filteredKeywords st = filteredKeywords st'
  /\ visibleSlice st = visibleSlice st'
  /\ (forall (p : PageState) (gender : string) (age : list string)
             (month increase custom : string),
        filterAndSort
          (setCustomSearchVolumeIncrease custom
             (setSearchVolumeIncreaseFilter increase
                (setBestSellingMonthFilter month
                   (setAgeFilter age (setGenderFilter gender p)))))
        = filterAndSort p).
Proof.
  intros st st'.
  assert (H : sameEngineState
                (run generateMockKeywords (initialWorld r) events)
                (run generateMockKeywords (initialWorld r) events')).
  { eapply sameEngineState_trans.
    - apply placeholders_erased;
        [apply sameEngineState_refl | reflexivity | reflexivity].
    - rewrite Hsame. apply sameEngineState_sym.
      apply placeholders_erased;
        [apply sameEngineState_refl | reflexivity | reflexivity]. }
  destruct H as [Hp _]. fold st st' in Hp.
  assert (Hk : keywords st = keywords st') by (same_pages Hp; reflexivity).
  assert (Hf : filteredKeywords st = filteredKeywords st')
    by (same_pages Hp; reflexivity).
  assert (Hv : visibleKeywords st = visibleKeywords st')
    by (same_pages Hp; reflexivity).
  repeat split; try assumption.
  - unfold visibleSlice. now rewrite Hf, Hv.
  - intros p gender age month increase custom.
    apply filterAndSort_same. destruct p. reflexivity.
Qed.

End PlaceholderFacts.

(** ** Concrete runs *)

(** C2, as stated, fails: after the window has grown to 40, changing the
    search term or the sort column leaves the visible count at 40, not at
    the initial page size of 30. *)
Lemma window_is_not_reset_by_a_change :
  visibleKeywords (page grownWorld) = 40
  /\ visibleKeywords (page (step sampleGenerator grownWorld (SetSearchTerm "keyword 1"))) = 40
  /\ visibleKeywords (page (step sampleGenerator grownWorld (Sort "name"))) = 40
  /\ visibleKeywords (page (step sampleGenerator grownWorld (SetSearchTerm "keyword 1")))
     <> 30.
Proof.
  repeat split; vm_compute; try reflexivity. discriminate.
Qed.

Lemma criteria_or_sort_change_keeps_window_witness :
  changesCriteriaOrSort (SetSearchTerm "keyword 1") = true
  /\ visibleKeywords (page (step sampleGenerator grownWorld (SetSearchTerm "keyword 1")))
     = visibleKeywords (page grownWorld).
Proof.
  split; [reflexivity |].
  exact (proj1 (criteria_or_sort_change_keeps_window nat sampleGenerator
                  grownWorld (SetSearchTerm "keyword 1") eq_refl)).
Defined.

(** C5, as stated, fails: when the component mounts the visible count is
    30 and the view is empty; and after the window has grown to 40 a
    search term that keeps 11 records leaves the visible count at 40. *)
Lemma visible_count_exceeds_total :
  visibleKeywords (page (initialWorld 0)) = 30
  /\ List.length (filteredKeywords (page (initialWorld 0))) = 0
  /\ ~ (visibleKeywords (page (initialWorld 0))
        <= List.length (filteredKeywords (page (initialWorld 0))))
  /\ (let st := page (step sampleGenerator grownWorld (SetSearchTerm "keyword 1")) in
      visibleKeywords st = 40
      /\ List.length (filteredKeywords st) = 11
      /\ ~ (visibleKeywords st <= List.length (filteredKeywords st))).
Proof.
  repeat split; vm_compute; try reflexivity; lia.
Qed.

(** C6, as stated, fails: after the window has grown to 40 and a search
    term has narrowed the view to 11 records, the table is shown with its
    scroll listener and no growth is pending; the visible count (40)
    differs from the length of the view (11), and [loadMore] does not
    increase it. *)
Lemma loadMore_noop_above_total :
  isLoading (page narrowedWorld) = false
  /\ scrollListener narrowedWorld = Some (closureOf (page narrowedWorld))
  /\ isLoadingMore (page narrowedWorld) = false
  /\ loadMoreTimers narrowedWorld = []
  /\ visibleKeywords (page narrowedWorld) = 40
  /\ List.length (filteredKeywords (page narrowedWorld)) = 11
  /\ loadMore sampleGenerator narrowedWorld = narrowedWorld
  /\ ~ (visibleKeywords (page narrowedWorld)
        <> List.length (filteredKeywords (page narrowedWorld)) ->
        visibleKeywords (page narrowedWorld)
        < visibleKeywords (page (loadMore sampleGenerator narrowedWorld))).
Proof.
  assert (Hvisible : visibleKeywords (page narrowedWorld) = 40)
    by (vm_compute; reflexivity).
  assert (Htotal : List.length (filteredKeywords (page narrowedWorld)) = 11)
    by (vm_compute; reflexivity).
  assert (Hafter : visibleKeywords (page (loadMore sampleGenerator narrowedWorld)) = 40)
    by (vm_compute; reflexivity).
  split; [vm_compute; reflexivity |]. split; [vm_compute; reflexivity |].
  split; [vm_compute; reflexivity |]. split; [vm_compute; reflexivity |].
  split; [exact Hvisible |]. split; [exact Htotal |].
  split; [vm_compute; reflexivity |].
  rewrite Hvisible, Htotal, Hafter. intros H.
  assert (Hlt : 40 < 40) by (apply H; discriminate). lia.
Qed.

Lemma loadMore_grows_or_does_nothing_witness :
  isLoadingMore (page loadedWorld) = false
  /\ loadMoreTimers loadedWorld = []
  /\ listenerInvariant loadedWorld
  /\ scrollListener loadedWorld <> None
  /\ isLoading (page loadedWorld) = false
  /\ visibleKeywords (page loadedWorld) = 30
  /\ List.length (filteredKeywords (page loadedWorld)) = 40
  /\ visibleKeywords (page (loadMore sampleGenerator loadedWorld)) = 40.
Proof.
  assert (Hidle : isLoadingMore (page loadedWorld) = false)
    by (vm_compute; reflexivity).
  assert (Hnone : loadMoreTimers loadedWorld = []) by (vm_compute; reflexivity).
  assert (Hcurrent : listenerInvariant loadedWorld).
  { intros closure H. vm_compute in H. injection H as <-.
    vm_compute. reflexivity. }
  assert (Hlistener : scrollListener loadedWorld <> None)
    by (vm_compute; discriminate).
  assert (Hshown : isLoading (page loadedWorld) = false)
    by (vm_compute; reflexivity).
  assert (Hvisible : visibleKeywords (page loadedWorld) = 30)
    by (vm_compute; reflexivity).
  assert (Htotal : List.length (filteredKeywords (page loadedWorld)) = 40)
    by (vm_compute; reflexivity).
  split; [exact Hidle |]. split; [exact Hnone |]. split; [exact Hcurrent |].
  split; [exact Hlistener |]. split; [exact Hshown |].
  split; [exact Hvisible |]. split; [exact Htotal |].
  destruct (loadMore_grows_or_does_nothing nat sampleGenerator loadedWorld
              Hidle Hnone Hcurrent) as [_ [Hgrow _]].
  rewrite Hvisible, Htotal in Hgrow.
  exact (proj1 (Hgrow Hlistener Hshown ltac:(lia))).
Defined.

(** C9, as stated, fails: the load of category "1" that starts when the
    component mounts is superseded by the selection of category "2", and
    when its timer fires its batch still replaces the dataset. *)
Lemma stale_load_is_not_discarded : ~ staleLoadDiscarded sampleGenerator.
Proof.
  intros H.
  assert (Hpending : loadTimers (run sampleGenerator (initialWorld 0)
                                   [SelectCategory "2"]) = ["1"; "2"])
    by (vm_compute; reflexivity).
  specialize (H _ "1" ["2"] Hpending ltac:(discriminate)).
  vm_compute in H. discriminate.
Qed.

Lemma last_started_load_wins_witness :
  (loadTimers (run sampleGenerator (initialWorld 0) [SelectCategory "2"])
   = ["1"; "2"]
   /\ keywords (page (run sampleGenerator (initialWorld 0)
                        [SelectCategory "2"; LoadTimeout]))
      = fst (sampleGenerator "1" 0)
   /\ loadTimers (run sampleGenerator (initialWorld 0)
                    [SelectCategory "2"; LoadTimeout]) = ["2"])
  /\ ("2" <> ""
      /\ (forall c, ~ In (SelectCategory c) [LoadTimeout; LoadTimeout])
      /\ loadTimers (run sampleGenerator (initialWorld 0)
                       ([] ++ SelectCategory "2" :: [LoadTimeout; LoadTimeout])) = []
      /\ exists r,
           keywords (page (run sampleGenerator (initialWorld 0)
                             ([] ++ SelectCategory "2" :: [LoadTimeout; LoadTimeout])))
           = fst (sampleGenerator "2" r)).
Proof.
  assert (H0 : loadTimers (run sampleGenerator (initialWorld 0) [SelectCategory "2"])
               = ["1"; "2"]) by (vm_compute; reflexivity).
  assert (H1 : "2" <> "") by discriminate.
  assert (H2 : forall c, ~ In (SelectCategory c) [LoadTimeout; LoadTimeout]).
  { intros c [H | [H | []]]; discriminate. }
  assert (H3 : loadTimers (run sampleGenerator (initialWorld 0)
                             ([] ++ SelectCategory "2" :: [LoadTimeout; LoadTimeout])) = [])
    by (vm_compute; reflexivity).
  split.
  - split; [exact H0 |].
    destruct (proj1 (last_started_load_wins nat sampleGenerator)
                (run sampleGenerator (initialWorld 0) [SelectCategory "2"])
                "1" ["2"] H0) as [Hk [_ Ht]].
    split; [exact Hk | exact Ht].
  - split; [exact H1 |]. split; [exact H2 |]. split; [exact H3 |].
    exact (proj2 (last_started_load_wins nat sampleGenerator) (initialWorld 0) []
             [LoadTimeout; LoadTimeout] "2" H1 H2 H3).
Defined.

Lemma placeholder_filters_do_not_affect_the_view_witness :
  let events :=
    [LoadTimeout; SetGenderFilter "male"; AgeFilterChange "20";
     SetSearchTerm "keyword 1"] in
  let events' :=
    [LoadTimeout; SetSearchTerm "keyword 1"; SetBestSellingMonthFilter "3";
     SetSearchVolumeIncreaseFilter "5000"] in
  filter (fun e => negb (placeholderOnly e)) events
  = filter (fun e => negb (placeholderOnly e)) events'
  /\ filteredKeywords (page (run sampleGenerator (initialWorld 0) events))
     = filteredKeywords (page (run sampleGenerator (initialWorld 0) events')).
Proof.
  intros events events'.
  assert (Hsame : filter (fun e => negb (placeholderOnly e)) events
                  = filter (fun e => negb (placeholderOnly e)) events')
    by reflexivity.
  split; [exact Hsame |].
  exact (proj1 (proj2 (placeholder_filters_do_not_affect_the_view
                         nat sampleGenerator 0 events events' Hsame))).
Defined.

(** ** The lookup of a category name *)

(** The search of the children is [findCategoryName] on them: the
    function as the source writes it. *)
Lemma findCategoryName_cons (categoryId : string) (category : Category.t)
    (rest : list Category.t) :
  findCategoryName categoryId (category :: rest)
  = if Category.id category =? categoryId then Category.name category
    else
      match Category.children category with
      | Some children =>
          let name := findCategoryName categoryId children in
          if JS.truthy name then name else findCategoryName categoryId rest
      | None => findCategoryName categoryId rest
      end.
Proof.
  simpl. destruct category as [id name level parentId children]. simpl.
  destruct (id =? categoryId); [reflexivity |].
  destruct children as [children |]; [| reflexivity].
  match goal with
  | |- context [JS.truthy ?loop] =>
      replace loop with (findCategoryName categoryId children)
  end.
  - now destruct (JS.truthy (findCategoryName categoryId children)).
  - induction children as [| child children IH]; simpl; [reflexivity |].
    now rewrite IH.
Qed.

Lemma findCategoryName_nil (categoryId : string) : findCategoryName categoryId [] = "".
Proof. reflexivity. Qed.

Lemma allCategories_cons (category : Category.t) (rest : list Category.t) :
  allCategories (category :: rest)
  = ((category
      :: match Category.children category with
         | Some children => allCategories children
         | None => []
         end)
     ++ allCategories rest)%list.
Proof. unfold allCategories. simpl. now destruct category. Qed.

Lemma truthy_iff (s : string) : JS.truthy s = true <-> s <> "".
Proof. destruct s; simpl; split; congruence. Qed.

Lemma truthy_false_iff (s : string) : JS.truthy s = false <-> s = "".
Proof. destruct s; simpl; split; congruence. Qed.

(** Induction on a forest of categories: the children of the first
    category, then the categories after it. *)
Lemma forest_induction (S : list Category.t -> Prop) :
  S [] ->
  (forall category rest,
      match Category.children category with
      | Some children => S children
      | None => True
      end ->
      S rest -> S (category :: rest)) ->
  forall categories, S categories.
Proof.
  intros Hnil Hcons.
  assert (H : forall n categories,
             List.length (allCategories categories) <= n -> S categories).
  { induction n as [| n IH]; intros [| category rest] Hlen; try exact Hnil.
    - rewrite allCategories_cons in Hlen. simpl in Hlen. lia.
    - rewrite allCategories_cons in Hlen. simpl in Hlen.
      rewrite length_app in Hlen.
      apply Hcons.
      + destruct (Category.children category) as [children |]; [| exact I].
        apply IH. lia.
      + apply IH. lia. }
  intros categories. now apply (H (List.length (allCategories categories))).
Qed.

Lemma NoDup_app_parts {A : Type} (l l' : list A) :
  NoDup (l ++ l') ->
  NoDup l /\ NoDup l' /\ (forall a, In a l -> ~ In a l').
Proof.
  induction l as [| x l IH]; simpl; intros H.
  - split; [constructor | split; [exact H | intros a []]].
  - inversion H as [| y m Hnot Hrest]; subst.
    destruct (IH Hrest) as [Hl [Hl' Hdis]]. split; [| split].
    + constructor; [| exact Hl]. intros Hin. apply Hnot, in_or_app. now left.
    + exact Hl'.
    + intros a [<- | Ha]; [| now apply Hdis].
      intros Hin. apply Hnot, in_or_app. now right.
Qed.

Lemma distinct_NoDup (l : list string) : distinct l = true -> NoDup l.
Proof.
  induction l as [| x l IH]; simpl; intros H; [constructor |].
  apply andb_prop in H. destruct H as [Hx Hl]. constructor; [| now apply IH].
  apply negb_true_iff in Hx. rewrite <- arrayIncludes_In. congruence.
Qed.

(** No category of the forest has the identifier: the lookup is empty. *)
Lemma findCategoryName_absent (categoryId : string) (categories : list Category.t) :
  (forall c, In c (allCategories categories) -> Category.id c <> categoryId) ->
  findCategoryName categoryId categories = "".
Proof.
  induction categories as [| category rest IHchildren IHrest] using forest_induction;
    intros Habsent; [reflexivity |].
  rewrite allCategories_cons in Habsent. rewrite findCategoryName_cons.
  assert (Hhead : (Category.id category =? categoryId) = false).
  { apply String.eqb_neq. apply Habsent. now left. }
  rewrite Hhead.
  assert (Hrest : findCategoryName categoryId rest = "").
  { apply IHrest. intros c Hc. apply Habsent. apply in_or_app. now right. }
  destruct (Category.children category) as [children |]; [| exact Hrest].
  rewrite IHchildren; [exact Hrest |].
  intros c Hc. apply Habsent. right. apply in_or_app. now left.
Qed.

(** A non-empty result is the name of a category with the identifier. *)
Lemma findCategoryName_sound (categoryId : string) (categories : list Category.t) :
  findCategoryName categoryId categories <> "" ->
  exists c, In c (allCategories categories)
            /\ Category.id c = categoryId
            /\ Category.name c = findCategoryName categoryId categories.
Proof.
  induction categories as [| category rest IHchildren IHrest] using forest_induction;
    [intros H; now elim H |].
  rewrite allCategories_cons, findCategoryName_cons.
  destruct (Category.id category =? categoryId) eqn:Hhead.
  - intros _. exists category. apply String.eqb_eq in Hhead. split; [now left | now split].
  - assert (Hlater : findCategoryName categoryId rest <> "" ->
                     exists c, In c ((category
                                      :: match Category.children category with
                                         | Some children => allCategories children
                                         | None => []
                                         end) ++ allCategories rest)%list
                               /\ Category.id c = categoryId
                               /\ Category.name c = findCategoryName categoryId rest).
    { intros H. destruct (IHrest H) as [c [Hc Hrest]]. exists c.
      split; [apply in_or_app; now right | exact Hrest]. }
    destruct (Category.children category) as [children |]; [| exact Hlater].
    cbv zeta.
    destruct (JS.truthy (findCategoryName categoryId children)) eqn:Hname;
      [| exact Hlater].
    intros H. destruct (IHchildren H) as [c [Hc Hrest]]. exists c.
    split; [right; apply in_or_app; now left | exact Hrest].
Qed.

(** With pairwise distinct identifiers, the lookup of the identifier of a
    category of the forest is its name. *)
Lemma findCategoryName_complete (categories : list Category.t) :
  NoDup (map Category.id (allCategories categories)) ->
  forall c, In c (allCategories categories) ->
            findCategoryName (Category.id c) categories = Category.name c.
Proof.
  induction categories as [| category rest IHchildren IHrest] using forest_induction;
    [intros _ c [] |].
  rewrite allCategories_cons. intros Hnodup c Hc.
  rewrite map_app in Hnodup. apply NoDup_app_parts in Hnodup.
  destruct Hnodup as [Hfirst [Hlater Hdisjoint]].
  simpl in Hfirst. apply NoDup_cons_iff in Hfirst. destruct Hfirst as [Hhead Hsub].
  rewrite findCategoryName_cons.
  apply in_app_or in Hc. destruct Hc as [[<- | Hc] | Hc].
  - now rewrite String.eqb_refl.
  - (* below the first category *)
    assert (Hne : (Category.id category =? Category.id c) = false).
    { apply String.eqb_neq. intros E. apply Hhead. rewrite E. now apply in_map. }
    rewrite Hne.
    destruct (Category.children category) as [children |]; [| destruct Hc].
    cbv zeta. rewrite (IHchildren Hsub c Hc).
    destruct (JS.truthy (Category.name c)) eqn:Hname; [reflexivity |].
    apply truthy_false_iff in Hname. rewrite Hname.
    apply findCategoryName_absent. intros d Hd E.
    apply (Hdisjoint (Category.id c)).
    + right. now apply in_map.
    + rewrite <- E. now apply in_map.
  - (* after the first category *)
    assert (Hne : (Category.id category =? Category.id c) = false).
    { apply String.eqb_neq. intros E. apply (Hdisjoint (Category.id category)).
      - now left.
      - rewrite E. now apply in_map. }
    rewrite Hne.
    assert (Hgoal : findCategoryName (Category.id c) rest = Category.name c)
      by now apply IHrest.
    destruct (Category.children category) as [children |]; [| exact Hgoal].
    cbv zeta. rewrite findCategoryName_absent; [exact Hgoal |].
    intros d Hd E. apply (Hdisjoint (Category.id c)).
    + right. rewrite <- E. now apply in_map.
    + now apply in_map.
Qed.

(** X1.  [findCategoryName] returns the empty string when no category of
    the forest, at any depth, has the identifier, and a non-empty result
    is always the name of a category of the forest that has the
    identifier. *)
Theorem findCategoryName_empty_or_a_matching_name
    (categoryId : string) (categories : list Category.t) :
  ((forall c, In c (allCategories categories) -> Category.id c <> categoryId) ->
   findCategoryName categoryId categories = "")
  /\ (findCategoryName categoryId categories <> "" ->
      exists c, In c (allCategories categories)
                /\ Category.id c = categoryId
                /\ Category.name c = findCategoryName categoryId categories).
Proof.
  split; [apply findCategoryName_absent | apply findCategoryName_sound].
Qed.

(** X2.  When the identifiers of the forest are pairwise distinct,
    [findCategoryName] returns the name of the category that has the
    identifier, at whatever depth it is. *)
Theorem findCategoryName_finds_the_category
    (categories : list Category.t) (c : Category.t)
    (Hdistinct : NoDup (map Category.id (allCategories categories)))
    (Hin : In c (allCategories categories)) :
  findCategoryName (Category.id c) categories = Category.name c.
Proof. now apply findCategoryName_complete. Qed.

Lemma mockCategories_distinct :
  NoDup (map Category.id (allCategories mockCategories)).
Proof. apply distinct_NoDup. vm_compute. reflexivity. Qed.

Lemma findCategoryName_finds_the_category_witness :
  NoDup (map Category.id (allCategories mockCategories))
  /\ In (leafCategory "2-1-1-3" "퀸 침대" 4 "2-1-1") (allCategories mockCategories)
  /\ findCategoryName "2-1-1-3" mockCategories = "퀸 침대".
Proof.
  assert (Hin : In (leafCategory "2-1-1-3" "퀸 침대" 4 "2-1-1")
                   (allCategories mockCategories)).
  { vm_compute. do 16 right. now left. }
  split; [exact mockCategories_distinct |]. split; [exact Hin |].
  exact (findCategoryName_finds_the_category mockCategories
           (leafCategory "2-1-1-3" "퀸 침대" 4 "2-1-1")
           mockCategories_distinct Hin).
Defined.

(** ** The category pickers *)

Lemma map_filter_commute {A B : Type} (f : A -> B) (p : B -> bool) (l : list A) :
  map f (filter (fun x => p (f x)) l) = filter p (map f l).
Proof.
  induction l as [| x l IH]; simpl; [reflexivity |].
  destruct (p (f x)); simpl; now rewrite IH.
Qed.

Lemma levelsTo_S (n : nat) :
  levelsTo (S n) = (levelsTo n ++ [Z.of_nat (S n)])%list.
Proof. unfold levelsTo. now rewrite seq_S, map_app. Qed.

Lemma levelsTo_In (n : nat) (z : Z) :
  In z (levelsTo n) <-> (1 <= z <= Z.of_nat n)%Z.
Proof.
  unfold levelsTo. rewrite in_map_iff. split.
  - intros [i [<- Hi]]. apply in_seq in Hi. lia.
  - intros Hz. exists (Z.to_nat z). split; [lia |]. apply in_seq. lia.
Qed.

Lemma filter_levelsTo (p : Z -> bool) (n j : nat) :
  j <= n ->
  (forall z, (1 <= z <= Z.of_nat n)%Z -> p z = true <-> (z <= Z.of_nat j)%Z) ->
  filter p (levelsTo n) = levelsTo j.
Proof.
  revert j. induction n as [| n IH]; intros j Hj Hp.
  - now replace j with 0 by lia.
  - rewrite levelsTo_S, filter_app.
    change (filter p [Z.of_nat (S n)])
      with (if p (Z.of_nat (S n)) then [Z.of_nat (S n)] else []).
    destruct (Nat.eq_dec j (S n)) as [-> | Hne].
    + rewrite levelsTo_S. f_equal.
      * rewrite <- (filter_all (levelsTo n)) at 2. apply filter_ext_in.
        intros z Hz. apply levelsTo_In in Hz. apply Hp; lia.
      * replace (p (Z.of_nat (S n))) with true; [reflexivity |].
        symmetry. apply Hp; lia.
    + replace (p (Z.of_nat (S n))) with false.
      * rewrite app_nil_r. apply IH; [lia |].
        intros z Hz. apply Hp. lia.
      * symmetry. apply not_true_is_false. intros H. apply Hp in H; lia.
Qed.

Lemma nth_error_levelsTo {A : Type} (level : A -> Z) (l : list A) (n i : nat) (x : A) :
  map level l = levelsTo n ->
  nth_error l i = Some x ->
  level x = Z.of_nat (S i) /\ i < n.
Proof.
  intros Hl Hx.
  assert (Hlen : List.length l = n).
  { rewrite <- (length_map level), Hl. unfold levelsTo.
    now rewrite length_map, length_seq. }
  assert (Hi : i < n).
  { rewrite <- Hlen. apply nth_error_Some. congruence. }
  split; [| exact Hi].
  apply (map_nth_error level) in Hx. rewrite Hl in Hx.
  unfold levelsTo in Hx. rewrite nth_error_map in Hx.
  rewrite (nth_error_nth' (seq 1 n) 0) in Hx by (rewrite length_seq; exact Hi).
  rewrite seq_nth in Hx by exact Hi.
  change (Some (Z.of_nat (1 + i)) = Some (level x)) in Hx.
  now injection Hx.
Qed.

Lemma In_allCategories_self (c : Category.t) (categories : list Category.t) :
  In c categories -> In c (allCategories categories).
Proof.
  intros H. unfold allCategories. apply in_flat_map. exists c.
  split; [exact H |]. destruct c. now left.
Qed.

(** The children of a category of a forest are categories of the forest. *)
Lemma children_in_forest (categories : list Category.t) :
  forall c children d,
    In c (allCategories categories) ->
    Category.children c = Some children ->
    In d children ->
    In d (allCategories categories).
Proof.
  induction categories as [| category rest IHchildren IHrest] using forest_induction;
    intros c children d Hc Hch Hd; [destruct Hc |].
  rewrite allCategories_cons in *.
  apply in_app_or in Hc. destruct Hc as [[<- | Hc] | Hc].
  - rewrite Hch. right. apply in_or_app. left. now apply In_allCategories_self.
  - destruct (Category.children category) as [below |]; [| destruct Hc].
    right. apply in_or_app. left. now apply (IHchildren c children d).
  - apply in_or_app. right. now apply (IHrest c children d).
Qed.

Lemma pickersInvariant_initial : pickersInvariant initialPickers.
Proof.
  split; [| split].
  - exists 1, 1. repeat split; reflexivity || lia.
  - intros o c [<- | []] Hc. now apply In_allCategories_self.
  - intros s [<- | []]. eexists. split; [left; reflexivity | now split].
Qed.

Lemma pickersInvariant_pick {Rng : Type} (state : Pickers * World Rng)
    (choice : nat * string) :
  pickersInvariant (fst state) -> pickersInvariant (fst (pick state choice)).
Proof.
  destruct state as [p w], choice as [i value]. unfold pick. simpl.
  intros Hinv.
  destruct (nth_error (categoryOptions p) i) as [option |] eqn:Hoption;
    [| exact Hinv].
  unfold onValueChange.
  destruct (find (fun c => Category.id c =? value) (optionCategories option))
    as [selected |] eqn:Hfind; [| exact Hinv].
  apply find_some in Hfind. destruct Hfind as [Hselected Hvalue].
  destruct Hinv as [[m [k [Hm [Hk [Hm1 [Hmk Hkm]]]]]] [Htree Hsel]].
  destruct (nth_error_levelsTo optionLevel _ k i option Hk Hoption) as [Hlevel Hik].
  assert (Hin : In option (categoryOptions p)) by now apply nth_error_In in Hoption.
  assert (Hnode : In selected (allCategories mockCategories))
    by now apply (Htree option).
  assert (Hkept : map optionLevel
                    (filter (fun o => (optionLevel o <=? optionLevel option)%Z)
                       (categoryOptions p))
                  = levelsTo (S i)).
  { rewrite (map_filter_commute optionLevel (fun z => (z <=? optionLevel option)%Z)).
    rewrite Hk. apply filter_levelsTo; [lia |].
    intros z _. rewrite Hlevel. apply Z.leb_le. }
  assert (Hchain : map selectedLevel
                     (filter (fun c => (selectedLevel c <? optionLevel option)%Z)
                        (selectedCategories p)
                      ++ [mkSelectedCategory (Category.id selected)
                            (Category.name selected) (optionLevel option)])%list
                   = levelsTo (S i)).
  { rewrite map_app, levelsTo_S. simpl. rewrite Hlevel. f_equal.
    rewrite (map_filter_commute selectedLevel (fun z => (z <? Z.of_nat (S i))%Z)).
    rewrite Hm. apply filter_levelsTo; [lia |].
    intros z _. rewrite Z.ltb_lt. lia. }
  assert (Hkeptin : forall o, In o (filter (fun o => (optionLevel o <=? optionLevel option)%Z)
                                      (categoryOptions p)) ->
                              In o (categoryOptions p)).
  { intros o Ho. now apply filter_In in Ho. }
  assert (Hnewsel : forall s,
             In s (filter (fun c => (selectedLevel c <? optionLevel option)%Z)
                     (selectedCategories p)
                   ++ [mkSelectedCategory (Category.id selected)
                         (Category.name selected) (optionLevel option)])%list ->
             exists c, In c (allCategories mockCategories)
                       /\ Category.id c = selectedId s
                       /\ Category.name c = selectedName s).
  { intros s Hs. apply in_app_or in Hs. destruct Hs as [Hs | [<- | []]].
    - apply filter_In in Hs. now apply Hsel.
    - exists selected. now repeat split. }
  destruct (Category.children selected) as [[| child others] |] eqn:Hchildren;
    unfold pickersInvariant; cbn [fst selectedCategories categoryOptions].
  - split; [| split; [| exact Hnewsel]].
    + exists (S i), (S i). split; [exact Hchain |]. split; [exact Hkept |]. lia.
    + intros o c Ho. apply Htree. now apply Hkeptin.
  - split; [| split; [| exact Hnewsel]].
    + exists (S i), (S (S i)). split; [exact Hchain |]. split; [| lia].
      rewrite map_app, Hkept, (levelsTo_S (S i)).
      cbn [map optionLevel]. rewrite Hlevel. do 3 f_equal. lia.
    + intros o c Ho Hc. apply in_app_or in Ho. destruct Ho as [Ho | [<- | []]].
      * apply (Htree o); [now apply Hkeptin | exact Hc].
      * cbn [optionCategories] in Hc.
        now apply (children_in_forest mockCategories selected (child :: others)).
  - split; [| split; [| exact Hnewsel]].
    + exists (S i), (S i). split; [exact Hchain |]. split; [exact Hkept |]. lia.
    + intros o c Ho. apply Htree. now apply Hkeptin.
Qed.

Lemma pickersInvariant_pickAll {Rng : Type} (choices : list (nat * string))
    (state : Pickers * World Rng) :
  pickersInvariant (fst state) -> pickersInvariant (fst (pickAll state choices)).
Proof.
  revert state. induction choices as [| choice choices IH]; intros state H;
    [exact H |].
  simpl. apply IH. now apply pickersInvariant_pick.
Qed.

(** X3.  Whatever choices are made in the category pickers, the selected
    categories have the levels 1, ..., m with m at least 1, the pickers
    shown have the levels 1, ..., k, and k is m or m + 1: the selection is
    a chain without gaps and at most one picker is open below it. *)
Theorem pickers_levels_form_a_chain {Rng : Type} (w : World Rng)
    (choices : list (nat * string)) :
  let p := fst (pickAll (initialPickers, w) choices) in
  exists m k,
    map selectedLevel p.(selectedCategories) = levelsTo m
    /\ map optionLevel p.(categoryOptions) = levelsTo k
    /\ 1 <= m /\ m <= k /\ k <= m + 1.
Proof.
  intros p.
  exact (proj1 (pickersInvariant_pickAll choices (initialPickers, w)
                  pickersInvariant_initial)).
Qed.

(** X4.  Whatever choices are made in the category pickers, the name
    stored with a selected category is the name that [findCategoryName]
    finds for its identifier in [mockCategories], and every category that
    a picker offers is a category of [mockCategories]. *)
Theorem selected_names_agree_with_the_lookup {Rng : Type} (w : World Rng)
    (choices : list (nat * string)) :
  let p := fst (pickAll (initialPickers, w) choices) in
  (forall s, In s p.(selectedCategories) ->
             findCategoryName s.(selectedId) mockCategories = s.(selectedName))
  /\ (forall o c, In o p.(categoryOptions) -> In c o.(optionCategories) ->
                  findCategoryName (Category.id c) mockCategories = Category.name c).
Proof.
  intros p.
  destruct (pickersInvariant_pickAll choices (initialPickers, w)
              pickersInvariant_initial) as [_ [Htree Hsel]].
  fold p in Htree, Hsel. split.
  - intros s Hs. destruct (Hsel s Hs) as [c [Hc [<- <-]]].
    now apply findCategoryName_complete; [apply mockCategories_distinct |].
  - intros o c Ho Hc.
    apply findCategoryName_complete; [apply mockCategories_distinct |].
    now apply (Htree o).
Qed.

(** ** The reordering of the columns *)

Lemma findIndex_bounds {A : Type} (test : A -> bool) (items : list A) :
  (-1 <= findIndex test items < Z.of_nat (List.length items))%Z
  \/ (items = [] /\ findIndex test items = (-1)%Z).
Proof.
  induction items as [| x items IH]; [now right |].
  left. cbn [findIndex List.length]. destruct (test x); [lia |].
  destruct (findIndex test items <? 0)%Z eqn:E; [lia |].
  apply Z.ltb_ge in E. destruct IH as [IH | [_ IH]]; lia.
Qed.

Lemma findIndex_nth {A : Type} (getId : A -> string) (items : list A) :
  NoDup (map getId items) ->
  forall i a, nth_error items i = Some a ->
              findIndex (fun item => getId item =? getId a) items = Z.of_nat i.
Proof.
  induction items as [| x items IH]; intros Hnodup i a Hi;
    [now destruct i |].
  simpl in Hnodup. apply NoDup_cons_iff in Hnodup. destruct Hnodup as [Hx Hrest].
  cbn [findIndex]. destruct i as [| i]; simpl in Hi.
  - injection Hi as ->. now rewrite String.eqb_refl.
  - assert (Hne : (getId x =? getId a) = false).
    { apply String.eqb_neq. intros E. apply Hx. rewrite E.
      apply in_map. now apply nth_error_In in Hi. }
    rewrite Hne, (IH Hrest i a Hi).
    destruct (Z.of_nat i <? 0)%Z eqn:E; [apply Z.ltb_lt in E; lia | lia].
Qed.

Lemma splice_parts_permutation {A : Type} (s d : nat) (inserted items : list A) :
  Permutation (firstn d (skipn s items)
               ++ firstn s items ++ inserted ++ skipn d (skipn s items))%list
              (inserted ++ items)%list.
Proof.
  assert (E : items = (firstn s items ++ firstn d (skipn s items)
                       ++ skipn d (skipn s items))%list)
    by now rewrite !firstn_skipn.
  revert E.
  generalize (firstn s items) (firstn d (skipn s items)) (skipn d (skipn s items)).
  intros b a c ->.
  eapply perm_trans; [apply Permutation_app_swap_app |].
  eapply perm_trans; [apply Permutation_app_head, Permutation_app_swap_app |].
  apply Permutation_app_swap_app.
Qed.

Lemma splice_permutation {A : Type} (start deleteCount : Z) (inserted items : list A) :
  Permutation (fst (splice start deleteCount inserted items)
               ++ snd (splice start deleteCount inserted items))%list
              (inserted ++ items)%list.
Proof. unfold splice. apply splice_parts_permutation. Qed.

Lemma splice_removes_nothing {A : Type} (start : Z) (inserted items : list A) :
  fst (splice start 0 inserted items) = [].
Proof.
  unfold splice. cbv zeta. cbn [fst].
  match goal with
  | |- firstn (Z.to_nat (Z.min (Z.max 0 0) ?y)) _ = _ =>
      replace (Z.to_nat (Z.min (Z.max 0 0) y)) with 0 by lia
  end.
  reflexivity.
Qed.

(** Removing one element at a valid position, and inserting one. *)
Lemma splice_remove {A : Type} (i : nat) (items : list A) :
  i < List.length items ->
  splice (Z.of_nat i) 1 [] items
  = (firstn 1 (skipn i items), (firstn i items ++ skipn 1 (skipn i items))%list).
Proof.
  intros Hi. unfold splice. cbv zeta.
  replace (Z.of_nat i <? 0)%Z with false by (symmetry; apply Z.ltb_ge; lia).
  replace (Z.min (Z.of_nat i) (Z.of_nat (List.length items))) with (Z.of_nat i) by lia.
  replace (Z.min (Z.max 1 0) (Z.of_nat (List.length items) - Z.of_nat i)) with 1%Z by lia.
  now rewrite Nat2Z.id.
Qed.

Lemma splice_remove_last {A : Type} (items : list A) :
  items <> [] ->
  splice (-1) 1 [] items = splice (Z.of_nat (List.length items - 1)) 1 [] items.
Proof.
  intros Hne. assert (Hlen : 0 < List.length items) by (destruct items; simpl; [congruence | lia]).
  unfold splice. cbv zeta.
  replace (Z.of_nat (List.length items - 1) <? 0)%Z with false
    by (symmetry; apply Z.ltb_ge; lia).
  change (-1 <? 0)%Z with true. cbv iota.
  replace (Z.max (Z.of_nat (List.length items) + -1) 0)
    with (Z.min (Z.of_nat (List.length items - 1)) (Z.of_nat (List.length items)))
    by lia.
  reflexivity.
Qed.

Lemma splice_insert {A : Type} (j : nat) (x : A) (items : list A) :
  splice (Z.of_nat j) 0 [x] items
  = ([], (firstn (Nat.min j (List.length items)) items
          ++ x :: skipn (Nat.min j (List.length items)) items)%list).
Proof.
  unfold splice. cbv zeta.
  replace (Z.of_nat j <? 0)%Z with false by (symmetry; apply Z.ltb_ge; lia).
  replace (Z.min (Z.of_nat j) (Z.of_nat (List.length items)))
    with (Z.of_nat (Nat.min j (List.length items))) by lia.
  replace (Z.min (Z.max 0 0) _) with 0%Z by lia.
  now rewrite Nat2Z.id.
Qed.

(** On a non-empty array the first [splice] of [handleDragEnd] removes
    exactly one element. *)
Lemma drag_removes_one {A : Type} (test : A -> bool) (items : list A) :
  items <> [] ->
  exists removed, fst (splice (findIndex test items) 1 [] items) = [removed].
Proof.
  intros Hne.
  assert (Hlen : 0 < List.length items) by (destruct items; simpl; [congruence | lia]).
  assert (Hat : forall i, i < List.length items ->
                          exists removed, fst (splice (Z.of_nat i) 1 [] items) = [removed]).
  { intros i Hi. rewrite splice_remove by exact Hi. cbn [fst].
    destruct (skipn i items) as [| x rest] eqn:E.
    - apply (f_equal (@List.length A)) in E. rewrite length_skipn in E. simpl in E. lia.
    - now exists x. }
  destruct (findIndex_bounds test items) as [Hb | [E _]]; [| now elim Hne].
  destruct (Z.eq_dec (findIndex test items) (-1)) as [-> | Hfound].
  - rewrite splice_remove_last by exact Hne. apply Hat. lia.
  - replace (findIndex test items) with (Z.of_nat (Z.to_nat (findIndex test items)))
      by lia.
    apply Hat. lia.
Qed.

(** X5.  Dragging a column onto another never loses or duplicates a
    column: on a non-empty array [handleDragEnd] returns a permutation of
    the array, whether or not the two identifiers are found in it. *)
Theorem handleDragEnd_permutes {A : Type} (getId : A -> string)
    (activeId overId : string) (items : list A) (Hitems : items <> []) :
  exists result,
    handleDragEnd getId activeId overId items = Some result
    /\ Permutation result items
    /\ List.length result = List.length items.
Proof.
  assert (H : exists result,
             handleDragEnd getId activeId overId items = Some result
             /\ Permutation result items).
  { unfold handleDragEnd.
    destruct (negb (activeId =? overId)); [| now exists items].
    destruct (drag_removes_one (fun item => getId item =? activeId) items Hitems)
      as [removed Hremoved].
    pose proof (splice_permutation
                  (findIndex (fun item => getId item =? activeId) items) 1 [] items)
      as Hfirst.
    destruct (splice (findIndex (fun item => getId item =? activeId) items) 1 [] items)
      as [removedItems newItems].
    cbn [fst snd] in *. subst removedItems.
    eexists. split; [reflexivity |].
    pose proof (splice_permutation
                  (findIndex (fun item => getId item =? overId) items) 0
                  [removed] newItems) as Hsecond.
    rewrite splice_removes_nothing in Hsecond.
    eapply perm_trans; [exact Hsecond |]. exact Hfirst. }
  destruct H as [result [E Hperm]]. exists result.
  split; [exact E |]. split; [exact Hperm | now apply Permutation_length].
Qed.

Lemma handleDragEnd_permutes_witness :
  ["rank"; "name"; "searchVolume"] <> []
  /\ handleDragEnd (fun c : string => c) "rank" "searchVolume"
       ["rank"; "name"; "searchVolume"]
     = Some ["name"; "searchVolume"; "rank"].
Proof.
  assert (Hne : ["rank"; "name"; "searchVolume"] <> []) by discriminate.
  split; [exact Hne |].
  destruct (handleDragEnd_permutes (fun c : string => c) "rank" "searchVolume"
              ["rank"; "name"; "searchVolume"] Hne) as [result [E _]].
  vm_compute in E. vm_compute. reflexivity.
Defined.

(** X6.  When the identifiers are pairwise distinct and both the dragged
    column and the column it is dropped on are in the array, the dragged
    column ends at the position that the other column had. *)
Theorem handleDragEnd_moves_to_the_target {A : Type} (getId : A -> string)
    (items : list A) (i j : nat) (active over : A)
    (Hdistinct : NoDup (map getId items))
    (Hactive : nth_error items i = Some active)
    (Hover : nth_error items j = Some over)
    (Hother : i <> j) :
  exists result,
    handleDragEnd getId (getId active) (getId over) items = Some result
    /\ nth_error result j = Some active.
Proof.
  assert (Hi : i < List.length items) by (apply nth_error_Some; congruence).
  assert (Hj : j < List.length items) by (apply nth_error_Some; congruence).
  assert (Hids : getId active <> getId over).
  { intros E. apply Hother.
    pose proof (findIndex_nth getId items Hdistinct i active Hactive) as Ha.
    pose proof (findIndex_nth getId items Hdistinct j over Hover) as Hb.
    rewrite E in Ha. lia. }
  unfold handleDragEnd.
  apply String.eqb_neq in Hids. rewrite Hids. cbn [negb].
  rewrite (findIndex_nth getId items Hdistinct i active Hactive).
  rewrite (findIndex_nth getId items Hdistinct j over Hover).
  rewrite splice_remove by exact Hi.
  assert (Hskip : skipn i items = active :: skipn (S i) items).
  { clear -Hactive. revert i Hactive.
    induction items as [| x items IH]; intros [| i] H; try discriminate.
    - now injection H as ->.
    - simpl. now apply IH. }
  rewrite Hskip.
  assert (Hlen : List.length (firstn i items ++ skipn (S i) items)%list
                 = List.length items - 1).
  { rewrite length_app, length_firstn, length_skipn. lia. }
  remember (firstn i items ++ skipn (S i) items)%list as others eqn:Hothers.
  change (firstn 1 (active :: skipn (S i) items)) with [active].
  change (skipn 1 (active :: skipn (S i) items)) with (skipn (S i) items).
  rewrite <- Hothers, splice_insert. cbn [snd]. eexists. split; [reflexivity |].
  rewrite Hlen. replace (Nat.min j (List.length items - 1)) with j by lia.
  rewrite nth_error_app2; rewrite length_firstn, Hlen.
  - replace (j - Nat.min j (List.length items - 1)) with 0 by lia. reflexivity.
  - lia.
Qed.

Lemma handleDragEnd_moves_to_the_target_witness :
  NoDup (map (fun c : string => c) ["rank"; "name"; "searchVolume"; "trend"])
  /\ nth_error ["rank"; "name"; "searchVolume"; "trend"] 3 = Some "trend"
  /\ nth_error ["rank"; "name"; "searchVolume"; "trend"] 1 = Some "name"
  /\ 3 <> 1
  /\ handleDragEnd (fun c : string => c) "trend" "name"
       ["rank"; "name"; "searchVolume"; "trend"]
     = Some ["rank"; "trend"; "name"; "searchVolume"].
Proof.
  assert (Hdistinct : NoDup (map (fun c : string => c)
                               ["rank"; "name"; "searchVolume"; "trend"]))
    by (apply distinct_NoDup; reflexivity).
  assert (Hne : 3 <> 1) by lia.
  split; [exact Hdistinct |]. split; [reflexivity |]. split; [reflexivity |].
  split; [exact Hne |].
  destruct (handleDragEnd_moves_to_the_target (fun c : string => c)
              ["rank"; "name"; "searchVolume"; "trend"] 3 1 "trend" "name"
              Hdistinct eq_refl eq_refl Hne) as [result [E _]].
  vm_compute. reflexivity.
Defined.

(** ** The sort handler and the sorted view *)

(** X7.  Clicking the header of the column that is the current sort key
    flips the direction, and a second click restores the state; clicking
    another column sorts by it in descending order, and a second click on
    it gives the ascending order. *)
Theorem handleSort_toggles_the_direction (columnId : string) (st : PageState) :
  (forall d, st.(sortConfig) = Some (mkSortConfig columnId d) ->
             sortConfig (handleSort columnId st)
             = Some (mkSortConfig columnId (match d with asc => desc | desc => asc end))
             /\ handleSort columnId (handleSort columnId st) = st)
  /\ ((forall c, st.(sortConfig) = Some c -> key c <> columnId) ->
      sortConfig (handleSort columnId st) = Some (mkSortConfig columnId desc)
      /\ sortConfig (handleSort columnId (handleSort columnId st))
         = Some (mkSortConfig columnId asc)).
Proof.
  assert (Hflip : forall p d,
             p.(sortConfig) = Some (mkSortConfig columnId d) ->
             handleSort columnId p
             = setSortConfig
                 (Some (mkSortConfig columnId
                          (match d with asc => desc | desc => asc end))) p).
  { intros p d Hcfg. unfold handleSort. rewrite Hcfg. simpl.
    now rewrite String.eqb_refl. }
  split.
  - intros d Hcfg. rewrite (Hflip st d Hcfg). split; [reflexivity |].
    rewrite (Hflip (setSortConfig
                      (Some (mkSortConfig columnId
                               (match d with asc => desc | desc => asc end))) st)
               (match d with asc => desc | desc => asc end) eq_refl).
    destruct st. simpl in Hcfg. subst. now destruct d.
  - intros Hother. unfold handleSort at 2.
    assert (E : sortConfig (handleSort columnId st) = Some (mkSortConfig columnId desc)).
    { unfold handleSort. simpl. destruct (sortConfig st) as [c |] eqn:Hc; [| reflexivity].
      specialize (Hother c eq_refl). apply String.eqb_neq in Hother.
      now rewrite Hother. }
    split; [exact E |]. rewrite E. simpl. now rewrite String.eqb_refl.
Qed.

Lemma Sorted_weaken {A : Type} (R R' : A -> A -> Prop) (l : list A) :
  (forall a b, R a b -> R' a b) -> Sorted R l -> Sorted R' l.
Proof.
  intros Himp. induction 1 as [| x l Hl IH Hhd]; constructor; [exact IH |].
  destruct Hhd; constructor. now apply Himp.
Qed.

Lemma all_equal_sorted {A : Type} (compare : A -> A -> Z) (l : list A) :
  (forall a b, (compare a b <= 0)%Z) -> Sorted (mayPrecede compare) l.
Proof.
  intros H. induction l as [| x l IH]; constructor; [exact IH |].
  destruct l; constructor. apply H.
Qed.

Lemma getField_not_a_field (keyword : Keyword.t) (key : string) :
  isKeywordField key = false -> Sorting.getField keyword key = Sorting.VUndefined.
Proof.
  unfold isKeywordField, JS.arrayIncludes. simpl. intros H.
  repeat (apply orb_false_elim in H; destruct H as [?E H]).
  unfold Sorting.getField.
  now rewrite E, E0, E1, E2, E3, E4, E5, E6.
Qed.

(** X8.  Sorting by a key that is not a field of the records, as the
    sortable columns "avgPrice" and "gender" are, leaves the order of the
    records as it is, in both directions. *)
Theorem sort_by_a_missing_field_changes_nothing
    (sortKey : string) (d : Direction) (records : list Keyword.t)
    (Hkey : isKeywordField sortKey = false) :
  sortStage (Some (mkSortConfig sortKey d)) records = records.
Proof.
  simpl. apply sort_sorted_input. apply all_equal_sorted. intros a b.
  unfold Sorting.compareFn. simpl.
  rewrite !(getField_not_a_field _ sortKey Hkey). simpl. lia.
Qed.

Lemma sort_by_a_missing_field_changes_nothing_witness :
  isKeywordField "avgPrice" = false
  /\ sortStage (Some (mkSortConfig "avgPrice" desc)) [recordA; recordShoes; recordBag]
     = [recordA; recordShoes; recordBag].
Proof.
  split; [reflexivity |].
  exact (sort_by_a_missing_field_changes_nothing "avgPrice" desc
           [recordA; recordShoes; recordBag] eq_refl).
Defined.

Lemma sorted_head_bounds {A : Type} (R : A -> A -> Prop) (first : A) (rest : list A) :
  (forall a b c, R a b -> R b c -> R a c) ->
  Sorted R (first :: rest) -> forall x, In x rest -> R first x.
Proof.
  intros Htrans Hsorted.
  apply Sorted_StronglySorted in Hsorted; [| exact Htrans].
  apply StronglySorted_inv in Hsorted. destruct Hsorted as [_ Hall].
  intros x Hx. now apply (proj1 (Forall_forall _ _) Hall).
Qed.

(** X9.  Sorted by search volume in descending order, the default, the
    search volumes never increase from one record to the next and the
    first record has the largest search volume of all; in ascending order
    they never decrease and the first record has the smallest. *)
Theorem sort_by_searchVolume_orders_the_volumes (records : list Keyword.t) :
  let descending := sortStage (Some (mkSortConfig "searchVolume" desc)) records in
  let ascending := sortStage (Some (mkSortConfig "searchVolume" asc)) records in
  Sorted (fun a b => (Keyword.searchVolume b <= Keyword.searchVolume a)%Z) descending
  /\ (forall first rest, descending = first :: rest ->
        forall k, In k records ->
                  (Keyword.searchVolume k <= Keyword.searchVolume first)%Z)
  /\ Sorted (fun a b => (Keyword.searchVolume a <= Keyword.searchVolume b)%Z) ascending
  /\ (forall first rest, ascending = first :: rest ->
        forall k, In k records ->
                  (Keyword.searchVolume first <= Keyword.searchVolume k)%Z).
Proof.
  intros descending ascending.
  assert (Hdesc : Sorted (fun a b => (Keyword.searchVolume b <= Keyword.searchVolume a)%Z)
                    descending).
  { apply (Sorted_weaken (mayPrecede (Sorting.compareFn (mkSortConfig "searchVolume" desc))));
      [| apply sortStage_sorted].
    intros a b. unfold mayPrecede, Sorting.compareFn. simpl.
    destruct (Keyword.searchVolume a <? Keyword.searchVolume b)%Z eqn:E; [lia |].
    apply Z.ltb_ge in E. intros _. exact E. }
  assert (Hasc : Sorted (fun a b => (Keyword.searchVolume a <= Keyword.searchVolume b)%Z)
                   ascending).
  { apply (Sorted_weaken (mayPrecede (Sorting.compareFn (mkSortConfig "searchVolume" asc))));
      [| apply sortStage_sorted].
    intros a b. unfold mayPrecede, Sorting.compareFn. simpl.
    destruct (Keyword.searchVolume a <? Keyword.searchVolume b)%Z eqn:E;
      [apply Z.ltb_lt in E; lia |].
    destruct (Keyword.searchVolume b <? Keyword.searchVolume a)%Z eqn:E'; [lia |].
    apply Z.ltb_ge in E'. intros _. exact E'. }
  split; [exact Hdesc |]. split; [| split; [exact Hasc |]].
  - intros first rest E k Hk.
    assert (Hin : In k descending).
    { apply (Permutation_in k (Permutation_sym (sortStage_permutation _ records))).
      exact Hk. }
    rewrite E in Hin, Hdesc. destruct Hin as [<- | Hin]; [lia |].
    apply (sorted_head_bounds _ first rest) with (x := k) in Hdesc;
      [exact Hdesc | intros; lia | exact Hin].
  - intros first rest E k Hk.
    assert (Hin : In k ascending).
    { apply (Permutation_in k (Permutation_sym (sortStage_permutation _ records))).
      exact Hk. }
    rewrite E in Hin, Hasc. destruct Hin as [<- | Hin]; [lia |].
    apply (sorted_head_bounds _ first rest) with (x := k) in Hasc;
      [exact Hasc | intros; lia | exact Hin].
Qed.

(** ** More on the page as a transition system *)

Section MoreEngineFacts.

Variable Rng : Type.
Variable generateMockKeywords : string -> Rng -> list Keyword.t * Rng.

Local Abbreviation step' := (step generateMockKeywords).
Local Abbreviation run' := (run generateMockKeywords).

Lemma settled_reachable (r : Rng) (events : list Event) :
  settled (page (run' (initialWorld r) events)).
Proof.
  apply (reachable_ind Rng generateMockKeywords (fun w => settled (page w))).
  - intros r'. reflexivity.
  - intros w e. apply settled_step.
Qed.

(** X11.  In every reachable state, choosing a sort column only reorders
    the view: the view after the click is a permutation of the view
    before it, and the dataset and the visible count are unchanged. *)
Theorem sort_event_permutes_the_view (r : Rng) (events : list Event)
    (columnId : string) :
  let w := run' (initialWorld r) events in
  Permutation (filteredKeywords (page (step' w (Sort columnId))))
              (filteredKeywords (page w))
  /\ keywords (page (step' w (Sort columnId))) = keywords (page w)
  /\ visibleKeywords (page (step' w (Sort columnId))) = visibleKeywords (page w).
Proof.
  intros w. split; [| split; reflexivity].
  unfold w at 2. rewrite (settled_reachable r events). fold w.
  change (filteredKeywords (page (step' w (Sort columnId))))
    with (sortStage (sortConfig (handleSort columnId (page w))) (filterStage (page w))).
  unfold filterAndSort.
  eapply perm_trans; [apply sortStage_permutation |].
  apply Permutation_sym, sortStage_permutation.
Qed.

Lemma loadingInvariant_step (w : World Rng) (e : Event) :
  loadingInvariant w -> loadingInvariant (step' w e).
Proof.
  unfold loadingInvariant. intros H.
  destruct e; try exact H; unfold step, update; simpl.
  - unfold selectCategory. destruct (JS.truthy categoryId); [| exact H].
    simpl. intros _ E. now apply app_eq_nil in E.
  - scroll_cases scrollTop clientHeight scrollHeight w; exact H.
  - unfold loadTimeout. destruct (loadTimers w) as [| categoryId rest] eqn:Hq.
    + intros E. now elim (H E).
    + destruct (generateMockKeywords categoryId (random w)). simpl. discriminate.
  - unfold loadMoreTimeout. destruct (loadMoreTimers w); exact H.
Qed.

Lemma loads_complete (n : nat) (w : World Rng) :
  List.length (loadTimers w) = n ->
  loadTimers (run' w (repeat LoadTimeout n)) = []
  /\ (0 < n -> isLoading (page (run' w (repeat LoadTimeout n))) = false).
Proof.
  revert w. induction n as [| n IH]; intros w Hlen.
  - split; [| lia]. simpl. now apply length_zero_iff_nil.
  - destruct (loadTimers w) as [| categoryId rest] eqn:Hq; [discriminate |].
    simpl in Hlen. injection Hlen as Hlen.
    assert (Hstep : loadTimers (step' w LoadTimeout) = rest
                    /\ isLoading (page (step' w LoadTimeout)) = false).
    { unfold step, update. simpl. unfold loadTimeout. rewrite Hq.
      destruct (generateMockKeywords categoryId (random w)). now split. }
    destruct Hstep as [Hrest Hoff].
    change (run' w (repeat LoadTimeout (S n)))
      with (run' (step' w LoadTimeout) (repeat LoadTimeout n)).
    destruct (IH (step' w LoadTimeout)) as [Hdone Hflag]; [now rewrite Hrest |].
    split; [exact Hdone |]. intros _.
    destruct n as [| n]; [exact Hoff | apply Hflag; lia].
Qed.

(** X14.  The loading indicator cannot stay on forever: in every reachable
    state a load timer is pending whenever [isLoading] holds, and once the
    pending load timers have fired no load is pending and [isLoading] is
    off. *)
Theorem loading_indicator_is_cleared (r : Rng) (events : list Event) :
  let w := run' (initialWorld r) events in
  let done := run' w (repeat LoadTimeout (List.length (loadTimers w))) in
  (isLoading (page w) = true -> loadTimers w <> [])
  /\ loadTimers done = []
  /\ isLoading (page done) = false.
Proof.
  intros w done.
  assert (Hinv : loadingInvariant w).
  { apply (reachable_ind Rng generateMockKeywords (@loadingInvariant Rng)).
    - intros r'. intros _. discriminate.
    - intros w' e. apply loadingInvariant_step. }
  destruct (loads_complete (List.length (loadTimers w)) w eq_refl) as [Hdone Hoff].
  split; [exact Hinv |]. split; [exact Hdone |].
  destruct (loadTimers w) as [| c rest] eqn:Hq.
  - subst done. try rewrite Hq. simpl.
    destruct (isLoading (page w)) eqn:E; [| reflexivity].
    apply Hinv in E. now rewrite Hq in E.
  - apply Hoff. simpl. lia.
Qed.

End MoreEngineFacts.

(** ** More on the filters *)

Lemma inactive_filters_keep_everything (st : PageState) :
  hasActiveFilters st = false -> filterStage st = st.(keywords).
Proof.
  unfold hasActiveFilters. intros H.
  repeat (apply orb_false_elim in H; destruct H as [H ?E]).
  apply negb_false_iff, String.eqb_eq in H.
  apply negb_false_iff, String.eqb_eq in E6.
  apply negb_false_iff in E5, E4, E3.
  unfold filterStage. rewrite applyMockFilters_id.
  unfold applyCompetition, applySearchType, applyBrand, applySearchVolume, applySearchTerm.
  now rewrite H, E6, E5, E4, E3.
Qed.

(** X15.  When [hasActiveFilters] is false no record is filtered out: the
    filter stage returns the dataset as it is and the view is the dataset,
    sorted. *)
Theorem no_active_filter_keeps_the_dataset (st : PageState)
    (Hinactive : hasActiveFilters st = false) :
  filterStage st = st.(keywords)
  /\ filterAndSort st = sortStage st.(sortConfig) st.(keywords)
  /\ List.length (filterAndSort st) = List.length st.(keywords).
Proof.
  assert (E : filterStage st = st.(keywords))
    by now apply inactive_filters_keep_everything.
  split; [exact E |]. unfold filterAndSort. rewrite E. split; [reflexivity |].
  apply Permutation_length, sortStage_permutation.
Qed.

Lemma no_active_filter_keeps_the_dataset_witness :
  hasActiveFilters (setKeywords [recordA; recordShoes; recordBag] initialState) = false
  /\ filterAndSort (setKeywords [recordA; recordShoes; recordBag] initialState)
     = [recordShoes; recordA; recordBag].
Proof.
  split; [reflexivity |].
  rewrite (proj1 (proj2 (no_active_filter_keeps_the_dataset
                           (setKeywords [recordA; recordShoes; recordBag] initialState)
                           eq_refl))).
  reflexivity.
Defined.

(** X16.  [resetFilters] leaves no filter active, whatever the state: the
    filter stage then returns the whole dataset; it does not touch the
    dataset, the sort specification or the visible count, and applying it
    twice is the same as applying it once. *)
Theorem resetFilters_clears_every_filter (st : PageState) :
  hasActiveFilters (resetFilters st) = false
  /\ filterStage (resetFilters st) = st.(keywords)
  /\ keywords (resetFilters st) = st.(keywords)
  /\ sortConfig (resetFilters st) = st.(sortConfig)
  /\ visibleKeywords (resetFilters st) = st.(visibleKeywords)
  /\ resetFilters (resetFilters st) = resetFilters st.
Proof.
  split; [reflexivity |]. split; [now rewrite inactive_filters_keep_everything |].
  split; [reflexivity |]. split; [reflexivity |]. split; [reflexivity |].
  destruct st. vm_compute. reflexivity.
Qed.

Lemma filter_partition_permutation {A : Type} (p : A -> bool) (l : list A) :
  Permutation (filter p l ++ filter (fun x => negb (p x)) l)%list l.
Proof.
  induction l as [| x l IH]; simpl; [constructor |].
  destruct (p x); simpl.
  - now apply perm_skip.
  - apply Permutation_sym, Permutation_cons_app. now apply Permutation_sym.
Qed.

(** X17.  The brand filter constrains only when exactly one of "brand" and
    "non-brand" is selected: a set without "all" that holds both, or
    neither, keeps every record.  The records kept for {"brand"} and for
    {"non-brand"} together are the records of the input, each once. *)
Theorem brand_filter_splits_the_input (brandFilter : list string)
    (records : list Keyword.t) :
  (JS.arrayIncludes brandFilter "brand" = JS.arrayIncludes brandFilter "non-brand" ->
   applyBrand brandFilter records = records)
  /\ applyBrand ["brand"] records = filter Keyword.isBrand records
  /\ applyBrand ["non-brand"] records
     = filter (fun keyword => negb (Keyword.isBrand keyword)) records
  /\ Permutation (applyBrand ["brand"] records ++ applyBrand ["non-brand"] records)%list
                 records.
Proof.
  split; [| split; [reflexivity | split; [reflexivity |]]].
  - intros Hsame. unfold applyBrand. rewrite Hsame.
    destruct (negb (JS.arrayIncludes brandFilter "all")); [| reflexivity].
    now destruct (JS.arrayIncludes brandFilter "non-brand").
  - apply (filter_partition_permutation Keyword.isBrand).
Qed.

(** X18.  A search-type set that holds both search types, and a
    competition set that holds the three competition levels, keep every
    record: selecting every value of a dimension is the same as selecting
    "all". *)
Theorem complete_selection_keeps_everything
    (searchTypeFilter competitionFilter : list string) (records : list Keyword.t)
    (Htypes : includesEverySearchType searchTypeFilter = true)
    (Hlevels : includesEveryCompetitionLevel competitionFilter = true) :
  applySearchType searchTypeFilter records = records
  /\ applyCompetition competitionFilter records = records.
Proof.
  unfold includesEverySearchType in Htypes.
  unfold includesEveryCompetitionLevel in Hlevels.
  apply andb_prop in Htypes. destruct Htypes as [Hshopping Hinformational].
  apply andb_prop in Hlevels. destruct Hlevels as [Hlevels Hhigh].
  apply andb_prop in Hlevels. destruct Hlevels as [Hlow Hmedium].
  split.
  - unfold applySearchType.
    destruct (negb (JS.arrayIncludes searchTypeFilter "all")); [| reflexivity].
    rewrite <- (filter_all records) at 2. apply filter_ext.
    intros keyword. now destruct (Keyword.searchType keyword).
  - unfold applyCompetition.
    destruct (negb (JS.arrayIncludes competitionFilter "all")); [| reflexivity].
    rewrite <- (filter_all records) at 2. apply filter_ext.
    intros keyword. now destruct (Keyword.competitionLevel keyword).
Qed.

Lemma complete_selection_keeps_everything_witness :
  includesEverySearchType ["정보성"; "쇼핑성"] = true
  /\ includesEveryCompetitionLevel ["높음"; "낮음"; "중간"] = true
  /\ applySearchType ["정보성"; "쇼핑성"] [recordA; recordShoes; recordBag]
     = [recordA; recordShoes; recordBag].
Proof.
  split; [reflexivity |]. split; [reflexivity |].
  exact (proj1 (complete_selection_keeps_everything
                  ["정보성"; "쇼핑성"] ["높음"; "낮음"; "중간"]
                  [recordA; recordShoes; recordBag] eq_refl eq_refl)).
Defined.

Lemma parseInt_truthy (s : string) (z : Z) : JS.parseInt s = Some z -> JS.truthy s = true.
Proof. destruct s; [discriminate | reflexivity]. Qed.

(** X19.  In custom-range mode with a minimum and a maximum that
    [parseInt] reads as numbers, the volume block keeps, in order, exactly
    the records whose search volume lies between them, bounds included;
    when the minimum exceeds the maximum it keeps none. *)
Theorem custom_range_keeps_the_interval
    (minSearchVolume maxSearchVolume : string) (lower upper : Z)
    (records : list Keyword.t)
    (Hmin : JS.parseInt minSearchVolume = Some lower)
    (Hmax : JS.parseInt maxSearchVolume = Some upper) :
  applySearchVolume "custom" minSearchVolume maxSearchVolume records
  = filter (fun keyword =>
              (lower <=? Keyword.searchVolume keyword)%Z
              && (Keyword.searchVolume keyword <=? upper)%Z) records
  /\ (forall keyword,
        In keyword (applySearchVolume "custom" minSearchVolume maxSearchVolume records)
        <-> In keyword records
            /\ (lower <= Keyword.searchVolume keyword <= upper)%Z)
  /\ ((upper < lower)%Z ->
      applySearchVolume "custom" minSearchVolume maxSearchVolume records = []).
Proof.
  assert (E : applySearchVolume "custom" minSearchVolume maxSearchVolume records
              = filter (fun keyword =>
                          (lower <=? Keyword.searchVolume keyword)%Z
                          && (Keyword.searchVolume keyword <=? upper)%Z) records).
  { unfold applySearchVolume. simpl.
    rewrite (parseInt_truthy _ _ Hmin), (parseInt_truthy _ _ Hmax), Hmin, Hmax.
    simpl. apply filter_twice. }
  split; [exact E |]. split.
  - intros keyword. rewrite E, filter_In, andb_true_iff, !Z.leb_le. reflexivity.
  - intros Hinverted. rewrite E. apply filter_none. intros keyword _.
    apply andb_false_iff.
    destruct (lower <=? Keyword.searchVolume keyword)%Z eqn:Hl; [right | now left].
    apply Z.leb_le in Hl. apply Z.leb_gt. lia.
Qed.

Lemma custom_range_keeps_the_interval_witness :
  JS.parseInt "1000" = Some 1000%Z
  /\ JS.parseInt "6000" = Some 6000%Z
  /\ applySearchVolume "custom" "1000" "6000" [recordA; recordShoes; recordBag]
     = [recordA].
Proof.
  split; [reflexivity |]. split; [reflexivity |].
  rewrite (proj1 (custom_range_keeps_the_interval "1000" "6000" 1000 6000
                    [recordA; recordShoes; recordBag] eq_refl eq_refl)).
  reflexivity.
Defined.

(** X20.  With a preset threshold that [parseInt] reads as a number, the
    volume block keeps exactly the records whose search volume is at least
    the threshold, and a higher threshold keeps a part of what a lower one
    keeps. *)
Theorem preset_threshold_is_a_lower_bound
    (preset higherPreset : string) (threshold higher : Z) (records : list Keyword.t)
    (Hpreset : preset <> "custom") (Hhigher : higherPreset <> "custom")
    (Hthreshold : JS.parseInt preset = Some threshold)
    (Hhigh : JS.parseInt higherPreset = Some higher)
    (Hle : (threshold <= higher)%Z) :
  applySearchVolume preset "" "" records
  = filter (fun keyword => (threshold <=? Keyword.searchVolume keyword)%Z) records
  /\ applySearchVolume higherPreset "" "" records
     = applySearchVolume higherPreset "" "" (applySearchVolume preset "" "" records).
Proof.
  assert (E : forall p t l, p <> "custom" -> JS.parseInt p = Some t ->
                applySearchVolume p "" "" l
                = filter (fun keyword => (t <=? Keyword.searchVolume keyword)%Z) l).
  { intros p t l Hp Ht. unfold applySearchVolume.
    rewrite (parseInt_truthy _ _ Ht). apply String.eqb_neq in Hp. rewrite Hp.
    cbv zeta. now rewrite Ht. }
  split; [now apply E |].
  rewrite !(E higherPreset higher) by assumption.
  rewrite (E preset threshold) by assumption.
  rewrite filter_twice. apply filter_ext. intros keyword.
  destruct (higher <=? Keyword.searchVolume keyword)%Z eqn:Hk;
    [| now rewrite andb_false_r].
  apply Z.leb_le in Hk. rewrite andb_true_r. symmetry. apply Z.leb_le. lia.
Qed.

Lemma preset_threshold_is_a_lower_bound_witness :
  "5000" <> "custom" /\ "10000" <> "custom"
  /\ JS.parseInt "5000" = Some 5000%Z /\ JS.parseInt "10000" = Some 10000%Z
  /\ (5000 <= 10000)%Z
  /\ applySearchVolume "5000" "" "" [recordA; recordShoes; recordBag]
     = [recordA; recordShoes].
Proof.
  assert (H1 : "5000" <> "custom") by discriminate.
  assert (H2 : "10000" <> "custom") by discriminate.
  assert (H3 : (5000 <= 10000)%Z) by lia.
  split; [exact H1 |]. split; [exact H2 |]. split; [reflexivity |].
  split; [reflexivity |]. split; [exact H3 |].
  rewrite (proj1 (preset_threshold_is_a_lower_bound "5000" "10000" 5000 10000
                    [recordA; recordShoes; recordBag] H1 H2 eq_refl eq_refl H3)).
  reflexivity.
Defined.

(** ** The criteria, dimension by dimension *)

Lemma textPredicate_meetsText (st : PageState) (keyword : Keyword.t) :
  textPredicate st keyword = true <-> meetsText st keyword.
Proof.
  unfold textPredicate, meetsText.
  destruct (JS.truthy (searchTerm st)) eqn:Hterm; simpl.
  - rewrite includes_iff. apply truthy_iff in Hterm. split.
    + intros H. now right.
    + intros [H | H]; [now elim Hterm | exact H].
  - apply truthy_false_iff in Hterm. split; [now left | reflexivity].
Qed.

Lemma ge_atLeast (volume : Z) (bound : string) :
  JS.ge volume (JS.parseInt bound) = true <-> atLeast bound volume.
Proof.
  unfold JS.ge, atLeast. destruct (JS.parseInt bound) as [n |]; split.
  - intros H. exists n. split; [reflexivity | now apply Z.leb_le].
  - intros [m [E H]]. injection E as <-. now apply Z.leb_le.
  - discriminate.
  - intros [m [E _]]. discriminate.
Qed.

Lemma le_atMost (volume : Z) (bound : string) :
  JS.le volume (JS.parseInt bound) = true <-> atMost bound volume.
Proof.
  unfold JS.le, atMost. destruct (JS.parseInt bound) as [n |]; split.
  - intros H. exists n. split; [reflexivity | now apply Z.leb_le].
  - intros [m [E H]]. injection E as <-. now apply Z.leb_le.
  - discriminate.
  - intros [m [E _]]. discriminate.
Qed.

Lemma guarded_bound (bound : string) (test : bool) (P : Prop) :
  (test = true <-> P) ->
  (implb (JS.truthy bound) test = true <-> bound = "" \/ P).
Proof.
  intros H. destruct bound; simpl.
  - split; [now left | reflexivity].
  - rewrite H. split; [now right | intros [E | HP]; [discriminate | exact HP]].
Qed.

Lemma volumePredicate_meetsVolume (st : PageState) (keyword : Keyword.t) :
  volumePredicate st keyword = true <-> meetsVolume st keyword.
Proof.
  unfold volumePredicate, meetsVolume.
  destruct (JS.truthy (searchVolumeFilter st)) eqn:Hset; simpl.
  - apply truthy_iff in Hset.
    destruct (searchVolumeFilter st =? "custom") eqn:Hcustom.
    + apply String.eqb_eq in Hcustom.
      rewrite andb_true_iff.
      rewrite (guarded_bound _ _ _ (ge_atLeast _ _)).
      rewrite (guarded_bound _ _ _ (le_atMost _ _)).
      split.
      * intros H. right. left. now split.
      * intros [H | [[_ H] | [H _]]]; [now elim Hset | exact H | now elim H].
    + apply String.eqb_neq in Hcustom. rewrite ge_atLeast. split.
      * intros H. right. right. now split.
      * intros [H | [[H _] | [_ H]]]; [now elim Hset | now elim Hcustom | exact H].
  - apply truthy_false_iff in Hset. split; [now left | reflexivity].
Qed.

Lemma brandPredicate_meetsBrand (st : PageState) (keyword : Keyword.t) :
  brandPredicate st keyword = true <-> meetsBrand st keyword.
Proof.
  unfold brandPredicate, meetsBrand.
  destruct (JS.arrayIncludes (brandFilter st) "all") eqn:Hall;
    destruct (JS.arrayIncludes (brandFilter st) "brand") eqn:Hbrand;
    destruct (JS.arrayIncludes (brandFilter st) "non-brand") eqn:Hnon;
    simpl;
    repeat match goal with
           | H : JS.arrayIncludes _ _ = true |- _ => apply arrayIncludes_In in H
           | H : JS.arrayIncludes _ _ = false |- _ => apply arrayIncludes_not_In in H
           end;
    destruct (Keyword.isBrand keyword);
    intuition (try discriminate; try congruence).
Qed.

Lemma membership_test (set : list string) (value : string) :
  implb (negb (JS.arrayIncludes set "all")) (JS.arrayIncludes set value) = true
  <-> In "all" set \/ In value set.
Proof.
  destruct (JS.arrayIncludes set "all") eqn:Hall;
    destruct (JS.arrayIncludes set value) eqn:Hvalue; simpl;
    repeat match goal with
           | H : JS.arrayIncludes _ _ = true |- _ => apply arrayIncludes_In in H
           | H : JS.arrayIncludes _ _ = false |- _ => apply arrayIncludes_not_In in H
           end;
    intuition discriminate.
Qed.

(** The conjunction of the callbacks holds of a record exactly when the
    record meets the criteria. *)
Lemma satisfiesAll_meetsCriteria (st : PageState) (keyword : Keyword.t) :
  satisfiesAll st keyword = true <-> meetsCriteria st keyword.
Proof.
  unfold satisfiesAll, meetsCriteria. rewrite !andb_true_iff.
  rewrite textPredicate_meetsText, volumePredicate_meetsVolume,
    brandPredicate_meetsBrand.
  unfold searchTypePredicate, competitionPredicate, meetsSearchType,
    meetsCompetition.
  rewrite !membership_test. tauto.
Qed.

(** C1, as stated, fails: the specification's text predicate looks for
    the trimmed search term.  With the term "a " the record named "a"
    satisfies every active predicate so worded, and it is in the dataset,
    but the filter does not keep it. *)
Lemma filter_misses_a_match_of_the_trimmed_term :
  let st := setSearchTerm "a " (setKeywords [recordA] initialState) in
  In recordA st.(keywords)
  /\ satisfiesAllAsSpecified st recordA = true
  /\ ~ In recordA (filterStage st)
  /\ filterAndSort st = [].
Proof.
  intros st.
  assert (Hstage : filterStage st = []) by (vm_compute; reflexivity).
  split; [now left |]. split; [vm_compute; reflexivity |].
  split; [rewrite Hstage; intros [] | vm_compute; reflexivity].
Qed.

(** C1, amended.  The filter stage of the effect keeps exactly the
    records of the dataset that meet the criteria, where the text
    dimension asks that the lower-cased name contains the lower-cased
    search term as typed, without trimming, and a preset or a non-empty
    bound constrains by the number that [parseInt] reads from it.  A
    record is in the result if and only if it is in the dataset and meets
    every active dimension; it occurs in the result as often as in the
    dataset (once for a record listed once) and not at all when it fails
    a dimension; the records kept are in their original order, the
    result being the dataset filtered by a test that holds exactly of
    the records that meet the criteria.  The sort that follows only
    permutes them, and without a sort specification the effect stores
    exactly this list. *)
Theorem filter_keeps_what_meets_the_criteria (st : PageState) :
  (forall keyword, satisfiesAll st keyword = true <-> meetsCriteria st keyword)
  /\ filterStage st = filter (satisfiesAll st) st.(keywords)
  /\ (forall keyword,
        In keyword (filterStage st)
        <-> In keyword st.(keywords) /\ meetsCriteria st keyword)
  /\ (forall keyword,
        meetsCriteria st keyword ->
        count_occ Keyword.eq_dec (filterStage st) keyword
        = count_occ Keyword.eq_dec st.(keywords) keyword)
  /\ (forall keyword,
        ~ meetsCriteria st keyword ->
        count_occ Keyword.eq_dec (filterStage st) keyword = 0)
  /\ Permutation (filterAndSort st) (filter (satisfiesAll st) st.(keywords))
  /\ (st.(sortConfig) = None ->
      filterAndSort st = filter (satisfiesAll st) st.(keywords)).
Proof.
  destruct (filter_by_the_conjunction st) as [Hfilter [Hin [Hcount [Hperm Hnone]]]].
  split; [intros keyword; apply satisfiesAll_meetsCriteria |].
  split; [exact Hfilter |].
  split; [| split; [| split; [| split; [exact Hperm | exact Hnone]]]].
  - intros keyword. rewrite Hin, satisfiesAll_meetsCriteria. reflexivity.
  - intros keyword Hmeets. rewrite Hcount.
    apply satisfiesAll_meetsCriteria in Hmeets. now rewrite Hmeets.
  - intros keyword Hfails. rewrite Hcount.
    destruct (satisfiesAll st keyword) eqn:E; [| reflexivity].
    now apply satisfiesAll_meetsCriteria in E.
Qed.

(** ** Text that is no number in a bound of the custom range *)

Example number_input_values :
  NumberInput.value "abc" = ""
  /\ NumberInput.value "12a" = ""
  /\ NumberInput.value "1." = ""
  /\ NumberInput.value "--5" = ""
  /\ NumberInput.value "" = ""
  /\ NumberInput.value "1000" = "1000"
  /\ NumberInput.value "-2.5e3" = "-2.5e3".
Proof. repeat split. Qed.

Lemma filterStage_without_volume_min (value : string) (st : PageState) :
  filterStage (setSearchVolumeFilter "" (setMinSearchVolume value st))
  = filterStage (setSearchVolumeFilter "" st).
Proof. reflexivity. Qed.

Lemma filterStage_without_volume_max (value : string) (st : PageState) :
  filterStage (setSearchVolumeFilter "" (setMaxSearchVolume value st))
  = filterStage (setSearchVolumeFilter "" st).
Proof. reflexivity. Qed.

(** C4.  In custom-range mode, text that is no number in the field of
    the minimum or of the maximum leaves that bound not set: the variable
    holds the empty string, that side of the range is not applied, and
    the result is the one of filtering with only the other bound, which
    is the result with the bound absent; with such text in both fields
    the volume does not constrain the result at all.  Nothing raises an
    error: the handlers and the effect are total functions. *)
Theorem malformed_bound_is_not_set (st : PageState) (text : string)
    (Hcustom : st.(searchVolumeFilter) = "custom")
    (Hmalformed : NumberInput.validFloatingPointNumber text = false) :
  let unconstrained := filterStage (setSearchVolumeFilter "" st) in
  (minSearchVolume (onMinSearchVolumeChange text st) = ""
   /\ filterStage (onMinSearchVolumeChange text st)
      = filter (fun keyword =>
                  implb (JS.truthy st.(maxSearchVolume))
                    (JS.le (Keyword.searchVolume keyword)
                           (JS.parseInt st.(maxSearchVolume))))
          unconstrained
   /\ filterAndSort (onMinSearchVolumeChange text st)
      = filterAndSort (setMinSearchVolume "" st))
  /\ (maxSearchVolume (onMaxSearchVolumeChange text st) = ""
      /\ filterStage (onMaxSearchVolumeChange text st)
         = filter (fun keyword =>
                     implb (JS.truthy st.(minSearchVolume))
                       (JS.ge (Keyword.searchVolume keyword)
                              (JS.parseInt st.(minSearchVolume))))
             unconstrained
      /\ filterAndSort (onMaxSearchVolumeChange text st)
         = filterAndSort (setMaxSearchVolume "" st))
  /\ filterStage (onMaxSearchVolumeChange text (onMinSearchVolumeChange text st))
     = unconstrained.
Proof.
  intros unconstrained.
  assert (Hvalue : NumberInput.value text = "").
  { unfold NumberInput.value. now rewrite Hmalformed. }
  unfold onMinSearchVolumeChange, onMaxSearchVolumeChange. rewrite Hvalue.
  split; [| split].
  - split; [reflexivity |]. split; [| reflexivity].
    destruct (custom_range_bounds (setMinSearchVolume "" st) Hcustom)
      as [Hmin _].
    rewrite (Hmin eq_refl). rewrite filterStage_without_volume_min. reflexivity.
  - split; [reflexivity |]. split; [| reflexivity].
    destruct (custom_range_bounds (setMaxSearchVolume "" st) Hcustom)
      as [_ [Hmax _]].
    rewrite (Hmax eq_refl). rewrite filterStage_without_volume_max. reflexivity.
  - destruct (custom_range_bounds
                (setMaxSearchVolume "" (setMinSearchVolume "" st)) Hcustom)
      as [Hmin _].
    rewrite (Hmin eq_refl). rewrite filterStage_without_volume_max.
    rewrite filterStage_without_volume_min. apply filter_all.
Qed.

Lemma malformed_bound_is_not_set_witness :
  (customRange "" "6000" [recordA; recordShoes]).(searchVolumeFilter) = "custom"
  /\ NumberInput.validFloatingPointNumber "abc" = false
  /\ filterStage (onMinSearchVolumeChange "abc"
                    (customRange "" "6000" [recordA; recordShoes]))
     = [recordA].
Proof.
  split; [reflexivity |]. split; [reflexivity |].
  rewrite (proj1 (proj2 (proj1 (malformed_bound_is_not_set
                                  (customRange "" "6000" [recordA; recordShoes])
                                  "abc" eq_refl eq_refl)))).
  vm_compute. reflexivity.
Defined.

(** ** More on the text filter *)

Lemma toLowerCase_truthy (s : string) : JS.truthy (JS.toLowerCase s) = JS.truthy s.
Proof. now destruct s. Qed.

(** X21.  Two search terms that differ only in the case of their letters
    give the same result of the text filter. *)
Theorem text_filter_ignores_the_case_of_the_term
    (searchTerm searchTerm' : string) (records : list Keyword.t)
    (Hcase : JS.toLowerCase searchTerm = JS.toLowerCase searchTerm') :
  applySearchTerm searchTerm records = applySearchTerm searchTerm' records.
Proof.
  unfold applySearchTerm.
  rewrite <- (toLowerCase_truthy searchTerm), <- (toLowerCase_truthy searchTerm').
  now rewrite Hcase.
Qed.

Lemma text_filter_ignores_the_case_of_the_term_witness :
  JS.toLowerCase "SHOES" = JS.toLowerCase "Shoes"
  /\ applySearchTerm "SHOES" [recordA; recordShoes]
     = applySearchTerm "Shoes" [recordA; recordShoes].
Proof.
  split; [reflexivity |].
  exact (text_filter_ignores_the_case_of_the_term "SHOES" "Shoes"
           [recordA; recordShoes] eq_refl).
Defined.

(** ** The multi-select variables hold no value twice *)

Lemma NoDup_without (v : string) (s : list string) :
  NoDup s -> NoDup (filter (fun item => negb (item =? v)) s).
Proof. apply NoDup_filter. Qed.

Lemma NoDup_snoc (v : string) (s : list string) :
  NoDup s -> ~ In v s -> NoDup (s ++ [v]).
Proof.
  intros Hs Hv. induction s as [| x s IH]; simpl.
  - constructor; [intros [] | constructor].
  - inversion Hs; subst. constructor.
    + intros Hin. apply in_app_or in Hin. destruct Hin as [Hin | [-> | []]].
      * contradiction.
      * apply Hv. now left.
    + apply IH; [assumption |]. intros Hin. apply Hv. now right.
Qed.

Lemma toggleInclusion_NoDup (s : list string) (v : string) :
  NoDup s -> NoDup (toggleInclusion s v).
Proof.
  intros Hs. unfold toggleInclusion.
  destruct (v =? "all") eqn:Hall; [repeat constructor; intros [] |].
  destruct (JS.arrayIncludes s v) eqn:Hin.
  - destruct (filter (fun item => negb (item =? v)) s) as [| x rest] eqn:E;
      [repeat constructor; intros [] |].
    rewrite <- E. now apply NoDup_without.
  - apply arrayIncludes_not_In in Hin.
    assert (Hnew : NoDup (filter (fun item => negb (item =? "all")) s ++ [v])).
    { apply NoDup_snoc; [now apply NoDup_without |].
      intros H. apply In_without in H. now destruct H. }
    destruct (filter (fun item => negb (item =? "all")) s ++ [v])%list;
      [repeat constructor; intros [] | exact Hnew].
Qed.

Lemma handleAgeFilterChange_NoDup (st : PageState) (v : string) :
  NoDup st.(ageFilter) -> NoDup (ageFilter (handleAgeFilterChange v st)).
Proof.
  intros Hs. unfold handleAgeFilterChange. simpl.
  destruct (JS.arrayIncludes (ageFilter st) v) eqn:Hin.
  - now apply NoDup_without.
  - apply NoDup_snoc; [exact Hs | now apply arrayIncludes_not_In].
Qed.

Section SelectionFacts.

Variable Rng : Type.
Variable generateMockKeywords : string -> Rng -> list Keyword.t * Rng.

Lemma selectionsDistinct_step (w : World Rng) (e : Event) :
  selectionsDistinct (page w) ->
  selectionsDistinct (page (step generateMockKeywords w e)).
Proof.
  intros [Hb [Ht [Hc Ha]]]. unfold selectionsDistinct.
  destruct e; unfold step, update; simpl; try (repeat split; assumption).
  - repeat split; try assumption. now apply toggleInclusion_NoDup.
  - repeat split; try assumption. now apply toggleInclusion_NoDup.
  - repeat split; try assumption. now apply toggleInclusion_NoDup.
  - repeat split; try assumption.
    now apply (handleAgeFilterChange_NoDup (page w)).
  - repeat split; repeat constructor; intros [].
  - unfold selectCategory. destruct (JS.truthy categoryId); repeat split; assumption.
  - scroll_cases scrollTop clientHeight scrollHeight w; repeat split; assumption.
  - unfold loadTimeout. destruct (loadTimers w); [repeat split; assumption |].
    destruct (generateMockKeywords s (random w)). simpl. repeat split; assumption.
  - unfold loadMoreTimeout. destruct (loadMoreTimers w); repeat split; assumption.
Qed.

(** X23.  In every reachable state none of the four multi-select
    variables (brand, search type, competition, age) lists a value
    twice, however the check boxes are toggled. *)
Theorem selections_hold_no_value_twice (r : Rng) (events : list Event) :
  let st := page (run generateMockKeywords (initialWorld r) events) in
  NoDup st.(brandFilter) /\ NoDup st.(searchTypeFilter)
  /\ NoDup st.(competitionFilter) /\ NoDup st.(ageFilter).
Proof.
  intros st.
  apply (reachable_ind Rng generateMockKeywords
           (fun w => selectionsDistinct (page w))).
  - intros r'. repeat split; repeat constructor; intros [].
  - intros w e. apply selectionsDistinct_step.
Qed.

End SelectionFacts.
